(** * Spotify MCP server (src/server/server.py): shallow embedding

    The module-level credential cache ([access_token], [expires_at]), the
    three Spotify request wrappers, the token refresh and the response
    shaping of the tools are modelled as explicit state passing over a small
    JSON value type.  Instants ([time.time()]) are integers. *)

From Stdlib Require Import String Ascii ZArith List Bool Lia Permutation.
Import ListNotations.
Open Scope string_scope.
Open Scope Z_scope.

Set Warnings "-register-all".

(** ** JSON values as [json.loads] / [httpx] produce them *)

Inductive json : Type :=
| JNull
| JBool (b : bool)
| JNum (z : Z)
| JStr (s : string)
| JArr (l : list json)
| JObj (kvs : list (string * json)).

(** Python exceptions the code can raise. *)
Inductive exn : Type :=
| HTTPStatusError (status : Z) (body : string)
| JSONDecodeError
| KeyError (key : string)
| TypeError
| AttributeError.

Inductive result (A : Type) : Type :=
| Ok (a : A)
| Err (e : exn).
Arguments Ok {A} a.
Arguments Err {A} e.

Definition bind {A B} (m : result A) (k : A -> result B) : result B :=
  match m with
  | Ok a => k a
  | Err e => Err e
  end.

Notation "x <- m ;; k" := (bind m (fun x => k))
  (at level 61, m at next level, right associativity).

Fixpoint mapM {A B} (f : A -> result B) (l : list A) : result (list B) :=
  match l with
  | [] => Ok []
  | x :: xs => y <- f x ;; ys <- mapM f xs ;; Ok (y :: ys)
  end.

(** *** Python semantics of dict access, truthiness and iteration *)

Fixpoint assoc (k : string) (kvs : list (string * json)) : option json :=
  match kvs with
  | [] => None
  | (k', v) :: rest => if String.eqb k k' then Some v else assoc k rest
  end.

(** [v[k]] with a string key. *)
Definition py_getitem (v : json) (k : string) : result json :=
  match v with
  | JObj kvs =>
      match assoc k kvs with
      | Some x => Ok x
      | None => Err (KeyError k)
      end
  | _ => Err TypeError
  end.

(** [v.get(k, default)]; only dicts have [.get]. *)
Definition py_get (v : json) (k : string) (default : json) : result json :=
  match v with
  | JObj kvs =>
      match assoc k kvs with
      | Some x => Ok x
      | None => Ok default
      end
  | _ => Err AttributeError
  end.

Definition truthy_str (s : string) : bool :=
  match s with
  | EmptyString => false
  | _ => true
  end.

Definition truthy (v : json) : bool :=
  match v with
  | JNull => false
  | JBool b => b
  | JNum z => negb (Z.eqb z 0)
  | JStr s => truthy_str s
  | JArr l => match l with [] => false | _ => true end
  | JObj kvs => match kvs with [] => false | _ => true end
  end.

Fixpoint chars (s : string) : list json :=
  match s with
  | EmptyString => []
  | String c rest => JStr (String c EmptyString) :: chars rest
  end.

(** [for x in v]: lists, dict keys and string characters are iterable. *)
Definition py_iter (v : json) : result (list json) :=
  match v with
  | JArr l => Ok l
  | JObj kvs => Ok (map (fun kv => JStr (fst kv)) kvs)
  | JStr s => Ok (chars s)
  | _ => Err TypeError
  end.

(** *** [str.split(sep)] for a one-character separator and [str.strip()] *)

Fixpoint py_split (sep : ascii) (s : string) : list string :=
  match s with
  | EmptyString => [EmptyString]
  | String c rest =>
      if Ascii.eqb c sep then EmptyString :: py_split sep rest
      else match py_split sep rest with
           | r :: rs => String c r :: rs
           | [] => [String c EmptyString]
           end
  end.

(** Characters for which [str.isspace()] holds in the ASCII range. *)
Definition is_space (c : ascii) : bool :=
  let n := nat_of_ascii c in
  (Nat.eqb n 32 || ((9 <=? n)%nat && (n <=? 13)%nat) || ((28 <=? n)%nat && (n <=? 31)%nat))%bool.

Fixpoint lstrip (s : string) : string :=
  match s with
  | EmptyString => EmptyString
  | String c rest => if is_space c then lstrip rest else s
  end.

Fixpoint rev_str (s : string) : string :=
  match s with
  | EmptyString => EmptyString
  | String c rest => rev_str rest ++ String c EmptyString
  end.

Definition rstrip (s : string) : string := rev_str (lstrip (rev_str s)).

Definition py_strip (s : string) : string := rstrip (lstrip s).

Example split_strip_example :
  map py_strip (py_split "," "uri1, uri2") = ["uri1"; "uri2"].
Proof. reflexivity. Qed.

(** ** HTTP responses and requests *)

Record Response : Type := {
  status_code : Z;
  content : string
}.

Record Request : Type := {
  req_method : string;
  req_url : string;
  req_params : json;   (** query string ([params=]) *)
  req_json : json;     (** request body ([json=]) *)
  req_bearer : json    (** value formatted into ["Bearer {token}"] *)
}.

Definition API_URL : string := "https://api.spotify.com/v1".

Definition is_success (code : Z) : bool := (200 <=? code) && (code <=? 299).

(** [resp.raise_for_status()]: raises for every status outside 2xx. *)
Definition raise_for_status (resp : Response) : option exn :=
  if is_success (status_code resp) then None
  else Some (HTTPStatusError (status_code resp) (content resp)).

(** ** The credential cache: the globals [access_token] and [expires_at] *)

Record Store : Type := {
  access_token : json;
  expires_at : Z
}.

(** [access_token = None], [expires_at = 0] at import time. *)
Definition init_store : Store := {| access_token := JNull; expires_at := 0 |}.

(** [if access_token and time.time() < expires_at]. *)
Definition token_valid (st : Store) (now : Z) : bool :=
  truthy (access_token st) && (now <? expires_at st).

(** [time.time() + data["expires_in"]] *)
Definition add_time (now : Z) (v : json) : result Z :=
  match v with
  | JNum z => Ok (now + z)
  | JBool b => Ok (now + if b then 1 else 0)
  | _ => Err TypeError
  end.

Definition ok_marker : json := JObj [("status", JStr "ok")].

Section Http.

(** [json.loads] on a response body; [None] is a [JSONDecodeError]. *)
Variable json_loads : string -> option json.

Definition resp_json (resp : Response) : result json :=
  match json_loads (content resp) with
  | Some j => Ok j
  | None => Err JSONDecodeError
  end.

(** Second half of [get_access_token] (lines 40-46), run once the token
    endpoint answered [resp] and the clock reads [now']. *)
Definition refresh (st : Store) (resp : Response) (now' : Z) : result json * Store :=
  match raise_for_status resp with
  | Some e => (Err e, st)
  | None =>
    match resp_json resp with
    | Err e => (Err e, st)
    | Ok data =>
      match py_getitem data "access_token" with
      | Err e => (Err e, st)
      | Ok tok =>
        let st1 := {| access_token := tok; expires_at := expires_at st |} in
        match py_getitem data "expires_in" with
        | Err e => (Err e, st1)
        | Ok ein =>
          match add_time now' ein with
          | Err e => (Err e, st1)
          | Ok t => (Ok tok, {| access_token := tok; expires_at := t |})
          end
        end
      end
    end
  end.

(** [get_access_token()]: the cache check at time [now]; on a miss the
    refresh-token exchange answered by [resp], finished at time [now']. *)
Definition get_access_token (st : Store) (now : Z) (resp : Response) (now' : Z)
  : result json * Store :=
  if token_valid st now then (Ok (access_token st), st)
  else refresh st resp now'.

(** Response handling of [spotify_get] and [spotify_post]. *)
Definition json_response (resp : Response) : result json :=
  match raise_for_status resp with
  | Some e => Err e
  | None => resp_json resp
  end.

(** Response handling of [spotify_put] (lines 117-122). *)
Definition put_response (resp : Response) : result json :=
  if (status_code resp =? 204) || (status_code resp =? 200)
     || negb (truthy_str (content resp))
  then Ok ok_marker
  else json_response resp.

(** ** The three request wrappers *)

(** What the outside world supplies to one tool call: the clock at the cache
    check and after the refresh exchange, the token endpoint's answer, and
    the Spotify API's answer to each request. *)
Record Env : Type := {
  now_check : Z;
  token_resp : Response;
  now_after : Z;
  http : Request -> Response
}.

Definition spotify_get_request (tok : json) (path : string) (params : json) : Request :=
  {| req_method := "GET"; req_url := API_URL ++ path; req_params := params;
     req_json := JNull; req_bearer := tok |}.

Definition spotify_post_request (tok : json) (path : string) (params : json) : Request :=
  {| req_method := "POST"; req_url := API_URL ++ path; req_params := JNull;
     req_json := params; req_bearer := tok |}.

Definition spotify_put_request (tok : json) (path : string) (params : json) : Request :=
  {| req_method := "PUT"; req_url := API_URL ++ path; req_params := JNull;
     req_json := params; req_bearer := tok |}.

(** [token = await get_access_token()], then the request built from it. *)
Definition with_token (env : Env) (st : Store) (k : json -> result json)
  : result json * Store :=
  match get_access_token st (now_check env) (token_resp env) (now_after env) with
  | (Err e, st1) => (Err e, st1)
  | (Ok tok, st1) => (k tok, st1)
  end.

Definition spotify_get (path : string) (params : json) (env : Env) (st : Store)
  : result json * Store :=
  with_token env st (fun tok =>
    json_response (http env (spotify_get_request tok path params))).

Definition spotify_post (path : string) (params : json) (env : Env) (st : Store)
  : result json * Store :=
  with_token env st (fun tok =>
    json_response (http env (spotify_post_request tok path params))).

Definition spotify_put (path : string) (params : json) (env : Env) (st : Store)
  : result json * Store :=
  with_token env st (fun tok =>
    put_response (http env (spotify_put_request tok path params))).

End Http.

(** ** Tools *)

(** *** [search_spotify]: shaping of one item (lines 155-162) *)
Definition clean_search_item (item : json) : result json :=
  id <- py_get item "id" JNull ;;
  name <- py_get item "name" JNull ;;
  uri <- py_get item "uri" JNull ;;
  artists <- (a <- py_get item "artists" JNull ;;
              if truthy a then
                arts <- py_get item "artists" (JArr []) ;;
                l <- py_iter arts ;;
                names <- mapM (fun a => py_get a "name" JNull) l ;;
                Ok (JArr names)
              else Ok JNull) ;;
  album <- (al <- py_get item "album" JNull ;;
            if truthy al then
              d <- py_get item "album" (JObj []) ;;
              py_get d "name" JNull
            else Ok JNull) ;;
  Ok (JObj [("id", id); ("name", name); ("uri", uri);
            ("artists", artists); ("album", album)]).

(** Lines 145-164: container lookup under [try/except Exception], then the
    shaping loop. *)
Definition search_normalize (search_type : string) (raw : json) : result json :=
  let container := search_type ++ "s" in
  let items := match (c <- py_getitem raw container ;; py_getitem c "items") with
               | Ok v => v
               | Err _ => JArr []
               end in
  l <- py_iter items ;;
  cleaned <- mapM clean_search_item l ;;
  Ok (JObj [("type", JStr search_type); ("items", JArr cleaned)]).

(** *** [get_playlist_items]: shaping of one entry (lines 297-307) *)
Definition clean_playlist_entry (entry : json) : result json :=
  track <- py_getitem entry "track" ;;
  id <- py_getitem track "id" ;;
  name <- py_getitem track "name" ;;
  uri <- py_getitem track "uri" ;;
  arts <- py_getitem track "artists" ;;
  l <- py_iter arts ;;
  names <- mapM (fun a => py_getitem a "name") l ;;
  alb <- py_getitem track "album" ;;
  albn <- py_getitem alb "name" ;;
  expl <- py_getitem track "explicit" ;;
  Ok (JObj [("id", id); ("name", name); ("uri", uri); ("artists", JArr names);
            ("album", albn); ("explicit", expl)]).

Definition playlist_items_normalize (limit offset : Z) (raw : json) : result json :=
  items <- py_getitem raw "items" ;;
  total <- py_getitem raw "total" ;;
  l <- py_iter items ;;
  cleaned <- mapM clean_playlist_entry l ;;
  Ok (JObj [("total_tracks", total); ("returned", JNum (Z.of_nat (length cleaned)));
            ("limit", JNum limit); ("offset", JNum offset); ("items", JArr cleaned)]).

(** [[uri.strip() for uri in s.split(',')]] *)
Definition split_uris (s : string) : list json :=
  map (fun u => JStr (py_strip u)) (py_split "," s).

Definition opt_str (o : option string) : json :=
  match o with Some s => JStr s | None => JNull end.

Definition opt_num (o : option Z) : json :=
  match o with Some z => JNum z | None => JNull end.

(** Line 395: [uris = [...] if track_uris else None]. *)
Definition playback_uris (track_uris : option string) : json :=
  match track_uris with
  | Some s => if truthy_str s then JArr (split_uris s) else JNull
  | None => JNull
  end.

Definition start_playback_body (context_uri track_uris : option string)
  (position_ms : option Z) : json :=
  JObj [("context_uri", opt_str context_uri); ("uris", playback_uris track_uris);
        ("position_ms", opt_num position_ms)].

Section Tools.

Variable json_loads : string -> option json.

Definition search_spotify (query search_type : string) (limit : Z) (env : Env) (st : Store)
  : result json * Store :=
  match spotify_get json_loads "/search"
          (JObj [("q", JStr query); ("type", JStr search_type); ("limit", JNum limit)])
          env st with
  | (Err e, st1) => (Err e, st1)
  | (Ok raw, st1) => (search_normalize search_type raw, st1)
  end.

Definition get_playlist_items (playlist_id : string) (limit offset : Z) (env : Env) (st : Store)
  : result json * Store :=
  match spotify_get json_loads ("/playlists/" ++ playlist_id ++ "/tracks")
          (JObj [("limit", JNum limit); ("offset", JNum offset)]) env st with
  | (Err e, st1) => (Err e, st1)
  | (Ok raw, st1) => (playlist_items_normalize limit offset raw, st1)
  end.

Definition add_to_playlist (playlist_id track_uri : string) (env : Env) (st : Store)
  : result json * Store :=
  let uri_list := split_uris track_uri in
  spotify_post json_loads ("/playlists/" ++ playlist_id ++ "/tracks")
    (JObj [("uris", JArr uri_list)]) env st.

Definition start_playback (context_uri track_uris : option string) (position_ms : option Z)
  (env : Env) (st : Store) : result json * Store :=
  spotify_put json_loads "/me/player/play"
    (start_playback_body context_uri track_uris position_ms) env st.

Definition pause_playback (env : Env) (st : Store) : result json * Store :=
  spotify_put json_loads "/me/player/pause" JNull env st.

End Tools.


(** ** Concurrent callers of [get_access_token]

    Under asyncio a call of [get_access_token] runs its cache check
    synchronously and then suspends at [await client.post(...)]; other
    tasks run before it resumes with the token endpoint's answer.  A task is
    therefore split at that await: [Check] runs lines 26-30 and issues the
    exchange on a miss, [Resume] runs lines 40-46 on the answer. *)
Module Concurrent.

Inductive pc : Type :=
| TStart
| TAwait
| TDone (r : result json).

Record World : Type := {
  tasks : nat -> pc;
  store : Store;
  exchanges : nat    (** refresh-token exchanges sent to the token endpoint *)
}.

Inductive event : Type :=
| Check (i : nat) (now : Z)
| Resume (i : nat) (resp : Response) (now' : Z).

Definition upd (f : nat -> pc) (i : nat) (v : pc) : nat -> pc :=
  fun j => if Nat.eqb j i then v else f j.

Definition start (st : Store) : World :=
  {| tasks := fun _ => TStart; store := st; exchanges := 0 |}.

Section Step.

Variable json_loads : string -> option json.

Definition step (w : World) (ev : event) : World :=
  match ev with
  | Check i now =>
    match tasks w i with
    | TStart =>
      if token_valid (store w) now
      then {| tasks := upd (tasks w) i (TDone (Ok (access_token (store w))));
              store := store w; exchanges := exchanges w |}
      else {| tasks := upd (tasks w) i TAwait;
              store := store w; exchanges := S (exchanges w) |}
    | _ => w
    end
  | Resume i resp now' =>
    match tasks w i with
    | TAwait =>
      let p := refresh json_loads (store w) resp now' in
      {| tasks := upd (tasks w) i (TDone (fst p));
         store := snd p; exchanges := exchanges w |}
    | _ => w
    end
  end.

Definition run (evs : list event) (w : World) : World := fold_left step evs w.

End Step.

(** [n] callers all check the cache, then all exchanges are answered. *)
Definition concurrent_schedule (n : nat) (now : Z) (rs : nat -> Response) (now' : Z)
  : list event :=
  map (fun i => Check i now) (seq 0 n) ++ map (fun i => Resume i (rs i) now') (seq 0 n).

End Concurrent.

(** ** The remaining tools *)

(** [d[k] = v] on a dict: an existing key keeps its position. *)
Fixpoint dict_set (kvs : list (string * json)) (k : string) (v : json)
  : list (string * json) :=
  match kvs with
  | [] => [(k, v)]
  | (k', v') :: rest =>
      if String.eqb k k' then (k', v) :: rest else (k', v') :: dict_set rest k v
  end.

(** [q.update(params)] *)
Definition dict_update (q params : list (string * json)) : list (string * json) :=
  fold_left (fun acc kv => dict_set acc (fst kv) (snd kv)) params q.

Definition LASTFM_API_URL : string := "http://ws.audioscrobbler.com/2.0/".

(** The query dict built by [lastfm_get] (lines 52-58). *)
Definition lastfm_query (api_key : json) (method : string) (params : list (string * json))
  : list (string * json) :=
  dict_update [("method", JStr method); ("api_key", api_key);
               ("format", JStr "json"); ("autocorrect", JStr "1")] params.

Section Lastfm.

Variable json_loads : string -> option json.

(** [lastfm_get(method, params)]: [lastfm_http] is Last.fm's answer to a GET
    of [LASTFM_API_URL] with the given query; no credential is involved. *)
Definition lastfm_get (api_key : json) (lastfm_http : list (string * json) -> Response)
  (method : string) (params : list (string * json)) : result json :=
  json_response json_loads (lastfm_http (lastfm_query api_key method params)).

End Lastfm.

(** [get_similar_tracks]: lines 357-360. *)
Definition similar_tracks_normalize (raw : json) : result json :=
  st <- py_getitem raw "similartracks" ;;
  tracks <- py_getitem st "track" ;;
  l <- py_iter tracks ;;
  results <- mapM (fun t => n <- py_getitem t "name" ;;
                            a <- py_getitem t "artist" ;;
                            an <- py_getitem a "name" ;;
                            Ok (JObj [("track", n); ("artist", an)])) l ;;
  Ok (JObj [("similar_tracks", JArr results)]).

(** [get_similar_artists]: lines 376-379. *)
Definition similar_artists_normalize (raw : json) : result json :=
  sa <- py_getitem raw "similarartists" ;;
  artists <- py_getitem sa "artist" ;;
  l <- py_iter artists ;;
  names <- mapM (fun a => py_getitem a "name") l ;;
  Ok (JObj [("similar_artists", JArr names)]).

(** [[a.get("name") for a in t.get("artists", [])]] *)
Definition artist_name_list (t : json) : result json :=
  arts <- py_get t "artists" (JArr []) ;;
  l <- py_iter arts ;;
  names <- mapM (fun a => py_get a "name" JNull) l ;;
  Ok (JArr names).

(** [t.get("album", {}).get("name")] *)
Definition album_name (t : json) : result json :=
  al <- py_get t "album" (JObj []) ;;
  py_get al "name" JNull.

(** [artist_top_tracks]: lines 181-193. *)
Definition clean_top_track (t : json) : result json :=
  id <- py_get t "id" JNull ;;
  name <- py_get t "name" JNull ;;
  uri <- py_get t "uri" JNull ;;
  artists <- artist_name_list t ;;
  album <- album_name t ;;
  popularity <- py_get t "popularity" JNull ;;
  Ok (JObj [("id", id); ("name", name); ("uri", uri); ("artists", artists);
            ("album", album); ("popularity", popularity)]).

Definition artist_top_tracks_normalize (raw : json) : result json :=
  tracks <- py_get raw "tracks" (JArr []) ;;
  l <- py_iter tracks ;;
  cleaned <- mapM clean_top_track l ;;
  Ok (JObj [("tracks", JArr cleaned)]).

(** [current_user_top_tracks]: one entry of the [enumerate(items, start=1)]
    loop (lines 229-237). *)
Definition clean_ranked_track (idx : Z) (t : json) : result json :=
  id <- py_get t "id" JNull ;;
  name <- py_get t "name" JNull ;;
  uri <- py_get t "uri" JNull ;;
  artists <- artist_name_list t ;;
  album <- album_name t ;;
  Ok (JObj [("rank", JNum idx); ("id", id); ("name", name); ("uri", uri);
            ("artists", artists); ("album", album)]).

Fixpoint clean_ranked_tracks (idx : Z) (l : list json) : result (list json) :=
  match l with
  | [] => Ok []
  | t :: rest =>
      x <- clean_ranked_track idx t ;;
      xs <- clean_ranked_tracks (idx + 1) rest ;;
      Ok (x :: xs)
  end.

(** Lines 226-239: [items = raw.get("items", []) or []]. *)
Definition top_tracks_normalize (raw : json) : result json :=
  got <- py_get raw "items" (JArr []) ;;
  let items := if truthy got then got else JArr [] in
  l <- py_iter items ;;
  cleaned <- clean_ranked_tracks 1 l ;;
  Ok (JArr cleaned).

(** [get_current_user_playlists]: one playlist (lines 261-268). *)
Definition clean_playlist (p : json) : result json :=
  id <- py_getitem p "id" ;;
  name <- py_getitem p "name" ;;
  uri <- py_getitem p "uri" ;;
  descr <- py_getitem p "description" ;;
  owner <- py_getitem p "owner" ;;
  owner_name <- py_getitem owner "display_name" ;;
  tracks <- py_getitem p "tracks" ;;
  tracks_total <- py_getitem tracks "total" ;;
  Ok (JObj [("id", id); ("name", name); ("uri", uri); ("description", descr);
            ("owner", owner_name); ("tracks_total", tracks_total)]).

Definition playlists_normalize (limit offset : Z) (raw : json) : result json :=
  items <- py_getitem raw "items" ;;
  total <- py_getitem raw "total" ;;
  l <- py_iter items ;;
  playlists <- mapM clean_playlist l ;;
  Ok (JObj [("total_playlists", total); ("returned", JNum (Z.of_nat (length playlists)));
            ("limit", JNum limit); ("offset", JNum offset); ("playlists", JArr playlists)]).

Section MoreTools.

Variable json_loads : string -> option json.

Definition get_similar_tracks (api_key : json) (lastfm_http : list (string * json) -> Response)
  (artist_name track_name : string) (limit : Z) : result json :=
  raw <- lastfm_get json_loads api_key lastfm_http "track.getSimilar"
           [("artist", JStr artist_name); ("track", JStr track_name); ("limit", JNum limit)] ;;
  similar_tracks_normalize raw.

Definition get_similar_artists (api_key : json) (lastfm_http : list (string * json) -> Response)
  (artist_name : string) (limit : Z) : result json :=
  raw <- lastfm_get json_loads api_key lastfm_http "artist.getSimilar"
           [("artist", JStr artist_name); ("limit", JNum limit)] ;;
  similar_artists_normalize raw.

Definition then_normalize (r : result json * Store) (f : json -> result json)
  : result json * Store :=
  match r with
  | (Err e, st1) => (Err e, st1)
  | (Ok raw, st1) => (f raw, st1)
  end.

Definition artist_top_tracks (artist_id market : string) (env : Env) (st : Store)
  : result json * Store :=
  then_normalize
    (spotify_get json_loads ("/artists/" ++ artist_id ++ "/top-tracks")
       (JObj [("market", JStr market)]) env st)
    artist_top_tracks_normalize.

Definition current_user_profile (env : Env) (st : Store) : result json * Store :=
  spotify_get json_loads "/me" JNull env st.

Definition current_user_top_tracks (time_range : string) (limit : Z) (env : Env) (st : Store)
  : result json * Store :=
  then_normalize
    (spotify_get json_loads "/me/top/tracks"
       (JObj [("time_range", JStr time_range); ("limit", JNum limit)]) env st)
    top_tracks_normalize.

Definition get_current_user_playlists (limit offset : Z) (env : Env) (st : Store)
  : result json * Store :=
  then_normalize
    (spotify_get json_loads "/me/playlists"
       (JObj [("limit", JNum limit); ("offset", JNum offset)]) env st)
    (playlists_normalize limit offset).

Definition create_playlist (user_id name description : string) (public : bool)
  (env : Env) (st : Store) : result json * Store :=
  spotify_post json_loads ("/users/" ++ user_id ++ "/playlists")
    (JObj [("name", JStr name); ("description", JStr description); ("public", JBool public)])
    env st.

End MoreTools.

(** ** Credential cache *)

(** The behaviour the spec asks of [getValidCredential] with a safety
    margin: serve the cache only while [now < expiresAt - margin]. *)
Definition margin_policy (json_loads : string -> option json) (margin : Z) : Prop :=
  forall st now resp now',
    (truthy (access_token st) = true /\ now < expires_at st - margin ->
     get_access_token json_loads st now resp now' = (Ok (access_token st), st)) /\
    (~ (truthy (access_token st) = true /\ now < expires_at st - margin) ->
     get_access_token json_loads st now resp now' = refresh json_loads st resp now').

Lemma token_valid_iff : forall st now,
  token_valid st now = true <-> truthy (access_token st) = true /\ now < expires_at st.
Proof.
  intros st now. unfold token_valid.
  rewrite andb_true_iff, Z.ltb_lt. tauto.
Qed.

Lemma refresh_fail : forall json_loads st resp now',
  is_success (status_code resp) = false ->
  refresh json_loads st resp now' =
  (Err (HTTPStatusError (status_code resp) (content resp)), st).
Proof.
  intros json_loads st resp now' H. unfold refresh, raise_for_status.
  rewrite H. reflexivity.
Qed.

(** C1 (counterexample): no safety margin is applied.  With a cached token
    expiring at [margin] and the clock at [0], inside the margin window, the
    code serves the cache instead of refreshing, whatever the margin and
    whatever the JSON decoder. *)
Lemma get_access_token_no_margin :
  ~ (exists json_loads margin, 0 < margin /\ margin_policy json_loads margin).
Proof.
  intros [jl [m [Hm Hp]]].
  set (st := {| access_token := JStr "t"; expires_at := m |}).
  set (resp := {| status_code := 500; content := "" |}).
  destruct (Hp st 0 resp 0) as [_ H2].
  assert (Hnot : ~ (truthy (access_token st) = true /\ 0 < expires_at st - m)).
  { simpl. lia. }
  specialize (H2 Hnot).
  unfold get_access_token in H2.
  assert (Hv : token_valid st 0 = true).
  { apply token_valid_iff. simpl. split; [reflexivity | lia]. }
  rewrite Hv, refresh_fail in H2 by reflexivity.
  discriminate H2.
Qed.

(** C1 (amended): the cached token is returned, with no exchange, exactly
    when it is truthy and [now < expires_at] (no margin); otherwise the
    refresh-token exchange runs: on success its token is stored with expiry
    [now' + expires_in] and returned, on a non-2xx answer the call fails and
    the cache is left as it was. *)
Theorem get_access_token_cache_or_refresh :
  forall json_loads st now resp now' data tok e,
    (truthy (access_token st) = true /\ now < expires_at st ->
     get_access_token json_loads st now resp now' = (Ok (access_token st), st)) /\
    (~ (truthy (access_token st) = true /\ now < expires_at st) ->
     is_success (status_code resp) = true ->
     json_loads (content resp) = Some data ->
     py_getitem data "access_token" = Ok tok ->
     py_getitem data "expires_in" = Ok (JNum e) ->
     get_access_token json_loads st now resp now'
       = (Ok tok, {| access_token := tok; expires_at := now' + e |})) /\
    (~ (truthy (access_token st) = true /\ now < expires_at st) ->
     is_success (status_code resp) = false ->
     get_access_token json_loads st now resp now'
       = (Err (HTTPStatusError (status_code resp) (content resp)), st)).
Proof.
  intros jl st now resp now' data tok e.
  unfold get_access_token.
  split; [|split].
  - intros H. apply token_valid_iff in H. rewrite H. reflexivity.
  - intros Hn Hs Hj Ht He.
    destruct (token_valid st now) eqn:Hv.
    { exfalso. apply Hn, token_valid_iff, Hv. }
    unfold refresh, raise_for_status, resp_json.
    rewrite Hs, Hj, Ht, He. reflexivity.
  - intros Hn Hs.
    destruct (token_valid st now) eqn:Hv.
    { exfalso. apply Hn, token_valid_iff, Hv. }
    apply refresh_fail, Hs.
Qed.

Lemma get_access_token_cache_or_refresh_witness :
  get_access_token (fun _ => Some (JObj [("access_token", JStr "new"); ("expires_in", JNum 3600)]))
    init_store 5 {| status_code := 200; content := "{}" |} 6
  = (Ok (JStr "new"), {| access_token := JStr "new"; expires_at := 6 + 3600 |}).
Proof.
  destruct (get_access_token_cache_or_refresh
              (fun _ => Some (JObj [("access_token", JStr "new"); ("expires_in", JNum 3600)]))
              init_store 5 {| status_code := 200; content := "{}" |} 6
              (JObj [("access_token", JStr "new"); ("expires_in", JNum 3600)])
              (JStr "new") 3600) as [_ [H _]].
  apply H.
  - simpl. intros [Hf _]. discriminate Hf.
  - reflexivity.
  - reflexivity.
  - reflexivity.
  - reflexivity.
Defined.

Module ConcurrentFacts.
Import Concurrent.

(** The check/resume split is [get_access_token] when one task runs alone. *)
Lemma run_single_task : forall json_loads st now resp now',
  let w := run json_loads [Check 0 now; Resume 0 resp now'] (start st) in
  tasks w 0 = TDone (fst (get_access_token json_loads st now resp now')) /\
  store w = snd (get_access_token json_loads st now resp now').
Proof.
  intros jl st now resp now'. unfold run, get_access_token. simpl.
  destruct (token_valid st now); simpl; split; reflexivity.
Qed.

Lemma refresh_result_indep : forall json_loads st1 st2 resp now',
  fst (refresh json_loads st1 resp now') = fst (refresh json_loads st2 resp now').
Proof.
  intros jl st1 st2 resp now'. unfold refresh.
  destruct (raise_for_status resp); [reflexivity|].
  destruct (resp_json jl resp) as [data|]; [|reflexivity].
  destruct (py_getitem data "access_token") as [tok|]; [|reflexivity].
  destruct (py_getitem data "expires_in") as [ein|]; [|reflexivity].
  destruct (add_time now' ein); reflexivity.
Qed.

Lemma run_app : forall json_loads evs1 evs2 w,
  run json_loads (evs1 ++ evs2) w = run json_loads evs2 (run json_loads evs1 w).
Proof. intros. unfold run. apply fold_left_app. Qed.

(** Cache checks of distinct tasks, in any order and each at its own clock,
    while the cache is invalid at every one of those clocks: each task
    issues an exchange and the store is untouched. *)
Lemma run_checks : forall json_loads nows cs w,
  NoDup cs ->
  (forall j, In j cs -> tasks w j = TStart /\ token_valid (store w) (nows j) = false) ->
  let w' := run json_loads (map (fun i => Check i (nows i)) cs) w in
  store w' = store w /\ exchanges w' = (exchanges w + length cs)%nat /\
  (forall j, In j cs -> tasks w' j = TAwait) /\
  (forall j, ~ In j cs -> tasks w' j = tasks w j).
Proof.
  intros jl nows cs. induction cs as [|c cs IH]; intros w Hnd Hs; simpl.
  - repeat split; try lia; auto; intros j [].
  - inversion Hnd as [|c' cs' Hc Hnd']; subst.
    destruct (Hs c (or_introl eq_refl)) as [Hst Hv].
    rewrite Hst, Hv.
    set (w1 := {| tasks := upd (tasks w) c TAwait; store := store w;
                  exchanges := S (exchanges w) |}).
    destruct (IH w1 Hnd') as [H1 [H2 [H3 H4]]].
    + intros j Hj. unfold w1, upd; simpl.
      destruct (Nat.eqb_spec j c) as [->|]; [contradiction|].
      apply Hs. right. exact Hj.
    + fold (run jl (map (fun i => Check i (nows i)) cs) w1).
      repeat split.
      * exact H1.
      * rewrite H2. simpl. lia.
      * intros j [<-|Hj].
        -- rewrite H4 by exact Hc. unfold w1, upd; simpl. rewrite Nat.eqb_refl. reflexivity.
        -- apply H3. exact Hj.
      * intros j Hj. rewrite H4 by tauto. unfold w1, upd; simpl.
        destruct (Nat.eqb_spec j c); [subst; tauto | reflexivity].
Qed.

(** Answers to the pending exchanges of distinct tasks, in any order, each
    with its own response and clock: each task ends with the outcome of its
    own exchange, whatever the store the earlier answers left. *)
Lemma run_resumes : forall json_loads st0 rs nows' ds w,
  NoDup ds ->
  (forall j, In j ds -> tasks w j = TAwait) ->
  let w' := run json_loads (map (fun i => Resume i (rs i) (nows' i)) ds) w in
  exchanges w' = exchanges w /\
  (forall j, In j ds ->
     tasks w' j = TDone (fst (refresh json_loads st0 (rs j) (nows' j)))) /\
  (forall j, ~ In j ds -> tasks w' j = tasks w j).
Proof.
  intros jl st0 rs nows' ds. induction ds as [|d ds IH]; intros w Hnd Ha; simpl.
  - repeat split; auto; intros j [].
  - inversion Hnd as [|d' ds' Hd Hnd']; subst.
    rewrite (Ha d (or_introl eq_refl)).
    set (w1 := {| tasks := upd (tasks w) d
                            (TDone (fst (refresh jl (store w) (rs d) (nows' d))));
                  store := snd (refresh jl (store w) (rs d) (nows' d));
                  exchanges := exchanges w |}).
    destruct (IH w1 Hnd') as [H1 [H2 H3]].
    + intros j Hj. unfold w1, upd; simpl.
      destruct (Nat.eqb_spec j d) as [->|]; [contradiction|].
      apply Ha. right. exact Hj.
    + fold (run jl (map (fun i => Resume i (rs i) (nows' i)) ds) w1).
      repeat split.
      * exact H1.
      * intros j [<-|Hj].
        -- rewrite H3 by exact Hd. unfold w1, upd; simpl. rewrite Nat.eqb_refl.
           f_equal. apply refresh_result_indep.
        -- apply H2. exact Hj.
      * intros j Hj. rewrite H3 by tauto. unfold w1, upd; simpl.
        destruct (Nat.eqb_spec j d); [subst; tauto | reflexivity].
Qed.

End ConcurrentFacts.

Module ConcurrentClaims.
Import Concurrent ConcurrentFacts.

(** Single-flight as the spec states it: [n] callers that all find the
    cache absent or expired before any exchange completes cause one
    exchange, and all of them receive the same outcome. *)
Definition single_flight (json_loads : string -> option json) : Prop :=
  forall n st now rs now',
    (1 <= n)%nat -> token_valid st now = false ->
    let w := run json_loads (concurrent_schedule n now rs now') (start st) in
    exchanges w = 1%nat /\
    (forall i j, (i < n)%nat -> (j < n)%nat -> tasks w i = tasks w j).

(** C2 (counterexample): two callers on the empty initial cache both pass
    the check before either exchange returns, so two refresh-token
    exchanges are sent, whatever the JSON decoder. *)
Lemma get_access_token_not_single_flight :
  ~ (exists json_loads, single_flight json_loads).
Proof.
  intros [jl Hsf].
  destruct (Hsf 2%nat init_store 0 (fun _ => {| status_code := 500; content := "" |}) 1)
    as [Hx _].
  - lia.
  - reflexivity.
  - simpl in Hx. discriminate Hx.
Qed.

(** C2 (amended): there is no single-flight.  Take [n] callers (tasks
    [0 .. n-1]) that each check the cache, in any order and each at its own
    clock, while it is absent or expired at every one of those clocks, before
    any exchange completes; then the [n] exchanges are answered in any
    order, each with its own response and clock.  Then [n] exchanges are
    sent, one per caller, and each caller receives the outcome of its own
    exchange. *)
Theorem get_access_token_one_exchange_per_caller :
  forall json_loads n st nows cs rs nows' ds,
    Permutation (seq 0 n) cs -> Permutation (seq 0 n) ds ->
    (forall i, (i < n)%nat -> token_valid st (nows i) = false) ->
    let w := run json_loads
               (map (fun i => Check i (nows i)) cs ++
                map (fun i => Resume i (rs i) (nows' i)) ds) (start st) in
    exchanges w = n /\
    (forall i, (i < n)%nat ->
       tasks w i = TDone (fst (refresh json_loads st (rs i) (nows' i)))).
Proof.
  intros jl n st nows cs rs nows' ds Hc Hd Hv. simpl.
  assert (Hinc : forall i, In i cs <-> (i < n)%nat).
  { intros i. split; intros H.
    - apply Permutation_sym in Hc. apply (Permutation_in _ Hc), in_seq in H. lia.
    - apply (Permutation_in _ Hc), in_seq. lia. }
  assert (Hind : forall i, In i ds <-> (i < n)%nat).
  { intros i. split; intros H.
    - apply Permutation_sym in Hd. apply (Permutation_in _ Hd), in_seq in H. lia.
    - apply (Permutation_in _ Hd), in_seq. lia. }
  rewrite run_app.
  destruct (run_checks jl nows cs (start st)) as [H1 [H2 [H3 _]]].
  { exact (Permutation_NoDup Hc (seq_NoDup n 0)). }
  { intros j Hj. split; [reflexivity|]. apply Hv, Hinc, Hj. }
  destruct (run_resumes jl st rs nows' ds
              (run jl (map (fun i => Check i (nows i)) cs) (start st))) as [R1 [R2 _]].
  { exact (Permutation_NoDup Hd (seq_NoDup n 0)). }
  { intros j Hj. apply H3, Hinc, Hind, Hj. }
  split.
  - rewrite R1, H2. simpl. rewrite <- (Permutation_length Hc), length_seq. reflexivity.
  - intros i Hi. apply R2, Hind, Hi.
Qed.

(** Three callers check at clocks 0, 1 and 2 on the empty cache; the
    answers arrive in the order 2, 0, 1 at clocks 7, 5 and 6. *)
Lemma get_access_token_one_exchange_per_caller_witness :
  let w := run (fun _ => None)
             (map (fun i => Check i (Z.of_nat i)) [1; 0; 2]%nat ++
              map (fun i => Resume i {| status_code := 401; content := "" |}
                                     (5 + Z.of_nat i)) [2; 0; 1]%nat)
             (start init_store) in
  exchanges w = 3%nat /\
  (forall i, (i < 3)%nat ->
     tasks w i = TDone (fst (refresh (fun _ => None) init_store
                               {| status_code := 401; content := "" |} (5 + Z.of_nat i)))).
Proof.
  apply (get_access_token_one_exchange_per_caller (fun _ => None) 3 init_store
           (fun i => Z.of_nat i) [1; 0; 2]%nat
           (fun _ => {| status_code := 401; content := "" |})
           (fun i => 5 + Z.of_nat i) [2; 0; 1]%nat).
  - apply NoDup_Permutation; [apply seq_NoDup | repeat constructor; simpl; lia |].
    intros x. simpl. lia.
  - apply NoDup_Permutation; [apply seq_NoDup | repeat constructor; simpl; lia |].
    intros x. simpl. lia.
  - intros i Hi. reflexivity.
Defined.

End ConcurrentClaims.

(** ** Request wrappers *)

Definition put_ok_status (resp : Response) : Prop :=
  status_code resp = 204 \/ status_code resp = 200 \/
  (is_success (status_code resp) = true /\ content resp = "").

Lemma put_response_ok : forall json_loads resp,
  put_ok_status resp -> put_response json_loads resp = Ok ok_marker.
Proof.
  intros jl [code body] H. unfold put_ok_status in H. simpl in H.
  unfold put_response; simpl.
  destruct H as [-> | [-> | [_ ->]]]; simpl; try reflexivity.
  rewrite !orb_true_r. reflexivity.
Qed.

Lemma json_response_non_2xx : forall json_loads resp,
  is_success (status_code resp) = false ->
  json_response json_loads resp = Err (HTTPStatusError (status_code resp) (content resp)).
Proof.
  intros jl resp H. unfold json_response, raise_for_status. rewrite H. reflexivity.
Qed.

(** C3 (code bug): answered with 404 and an empty body, [spotify_get] and
    [spotify_post] fail with [HTTPStatusError 404] while [spotify_put]
    returns the success marker, because the empty-body test of line 118 runs
    before [raise_for_status] on line 121. *)
Theorem spotify_put_404_empty_body_ok : forall json_loads path params,
  let st := {| access_token := JStr "tok"; expires_at := 100 |} in
  let env := {| now_check := 0; token_resp := {| status_code := 400; content := "" |};
                now_after := 0;
                http := (fun _ => {| status_code := 404; content := "" |}) |} in
  spotify_get json_loads path params env st = (Err (HTTPStatusError 404 ""), st) /\
  spotify_post json_loads path params env st = (Err (HTTPStatusError 404 ""), st) /\
  spotify_put json_loads path params env st = (Ok ok_marker, st).
Proof.
  intros jl path params. repeat split.
Qed.

(** C4: a PUT answered with 204, with 200, or with an empty 2xx body
    returns [{"status": "ok"}]; GET and POST do not apply that rule: an
    empty body is handed to [json.loads], which rejects it. *)
Theorem spotify_put_empty_success : forall json_loads,
  json_loads "" = None ->
  forall path params env st tok st1,
    get_access_token json_loads st (now_check env) (token_resp env) (now_after env)
      = (Ok tok, st1) ->
    (put_ok_status (http env (spotify_put_request tok path params)) ->
     spotify_put json_loads path params env st = (Ok ok_marker, st1)) /\
    (content (http env (spotify_get_request tok path params)) = "" ->
     fst (spotify_get json_loads path params env st) <> Ok ok_marker) /\
    (content (http env (spotify_post_request tok path params)) = "" ->
     fst (spotify_post json_loads path params env st) <> Ok ok_marker).
Proof.
  intros jl Hjl path params env st tok st1 Htok.
  unfold spotify_put, spotify_get, spotify_post, with_token. rewrite Htok.
  split; [|split].
  - intros H. rewrite put_response_ok by exact H. reflexivity.
  - intros H. simpl. unfold json_response, resp_json. rewrite H, Hjl.
    destruct (raise_for_status _); discriminate.
  - intros H. simpl. unfold json_response, resp_json. rewrite H, Hjl.
    destruct (raise_for_status _); discriminate.
Qed.

Definition json_loads_example (s : string) : option json :=
  if String.eqb s "" then None else Some (JObj []).

Definition cached_env (code : Z) (body : string) : Env :=
  {| now_check := 0; token_resp := {| status_code := 400; content := "" |};
     now_after := 0; http := (fun _ => {| status_code := code; content := body |}) |}.

Definition cached_store : Store := {| access_token := JStr "tok"; expires_at := 100 |}.

Lemma spotify_put_empty_success_witness :
  spotify_put json_loads_example "/me/player/pause" JNull (cached_env 204 "") cached_store
  = (Ok ok_marker, cached_store).
Proof.
  apply (spotify_put_empty_success json_loads_example eq_refl "/me/player/pause" JNull
           (cached_env 204 "") cached_store (JStr "tok") cached_store eq_refl).
  left. reflexivity.
Defined.

(** C5: when the refresh-token exchange gets a non-2xx answer, the cache
    ([access_token], [expires_at]) is unchanged, and a call that needed the
    exchange fails with that status. *)
Theorem refresh_failure_keeps_cache : forall json_loads st now resp now',
  is_success (status_code resp) = false ->
  snd (get_access_token json_loads st now resp now') = st /\
  (token_valid st now = false ->
   fst (get_access_token json_loads st now resp now')
     = Err (HTTPStatusError (status_code resp) (content resp))).
Proof.
  intros jl st now resp now' Hs. unfold get_access_token.
  destruct (token_valid st now).
  - split; [reflexivity | discriminate].
  - rewrite refresh_fail by exact Hs. split; reflexivity.
Qed.

Lemma refresh_failure_keeps_cache_witness :
  snd (get_access_token json_loads_example cached_store 200
         {| status_code := 401; content := "revoked" |} 201) = cached_store /\
  fst (get_access_token json_loads_example cached_store 200
         {| status_code := 401; content := "revoked" |} 201)
    = Err (HTTPStatusError 401 "revoked").
Proof.
  destruct (refresh_failure_keeps_cache json_loads_example cached_store 200
              {| status_code := 401; content := "revoked" |} 201 eq_refl) as [H1 H2].
  split; [exact H1 | exact (H2 eq_refl)].
Defined.

(** ** Search normalization *)

(** C6: for [search_type = "track"] the items are read from the ["tracks"]
    container and the spec's example payload is shaped exactly into
    [{type: "track", items: [{id, name, uri, artists: ["A"], album: "Alb"}]}]. *)
Theorem search_normalize_track_example :
  "track" ++ "s" = "tracks" /\
  search_normalize "track"
    (JObj [("tracks", JObj [("items", JArr [JObj [("id", JStr "1"); ("name", JStr "Song");
       ("uri", JStr "spotify:track:1"); ("artists", JArr [JObj [("name", JStr "A")]]);
       ("album", JObj [("name", JStr "Alb")])]])])])
  = Ok (JObj [("type", JStr "track"); ("items", JArr [JObj [("id", JStr "1");
       ("name", JStr "Song"); ("uri", JStr "spotify:track:1");
       ("artists", JArr [JStr "A"]); ("album", JStr "Alb")]])]).
Proof. split; reflexivity. Qed.

(** C7: whenever [raw[search_type + "s"]["items"]] raises (container or
    its ["items"] member absent, or [raw] not a dict), the result is
    [{type: search_type, items: []}] and nothing is raised. *)
Theorem search_normalize_absent_container : forall search_type raw e,
  (c <- py_getitem raw (search_type ++ "s") ;; py_getitem c "items") = Err e ->
  search_normalize search_type raw = Ok (JObj [("type", JStr search_type); ("items", JArr [])]).
Proof.
  intros stype raw e H. unfold search_normalize. rewrite H. reflexivity.
Qed.

Lemma search_normalize_absent_container_witness :
  search_normalize "artist" (JObj [("tracks", JObj [("items", JArr [])])])
  = Ok (JObj [("type", JStr "artist"); ("items", JArr [])]).
Proof.
  apply (search_normalize_absent_container "artist"
           (JObj [("tracks", JObj [("items", JArr [])])]) (KeyError "artists")).
  reflexivity.
Defined.

(** ** Comma-separated URI lists *)

Fixpoint has_char (c : ascii) (s : string) : bool :=
  match s with
  | EmptyString => false
  | String a rest => Ascii.eqb a c || has_char c rest
  end.

Lemma py_split_nonempty : forall c s, py_split c s <> [].
Proof.
  intros c s. destruct s as [|a rest]; simpl; [discriminate|].
  destruct (Ascii.eqb a c); [discriminate|].
  destruct (py_split c rest); discriminate.
Qed.

Lemma py_split_concat : forall c s,
  String.concat (String c EmptyString) (py_split c s) = s.
Proof.
  intros c s. induction s as [|a rest IH]; [reflexivity|].
  simpl. destruct (Ascii.eqb a c) eqn:E.
  - apply Ascii.eqb_eq in E. subst a.
    destruct (py_split c rest) as [|r rs] eqn:Hs.
    + exfalso. exact (py_split_nonempty c rest Hs).
    + simpl. f_equal. exact IH.
  - destruct (py_split c rest) as [|r rs] eqn:Hs.
    + exfalso. exact (py_split_nonempty c rest Hs).
    + destruct rs as [|r' rs']; simpl in *; f_equal; exact IH.
Qed.

Lemma py_split_no_sep : forall c s,
  Forall (fun u => has_char c u = false) (py_split c s).
Proof.
  intros c s. induction s as [|a rest IH]; simpl.
  - constructor; [reflexivity | constructor].
  - destruct (Ascii.eqb a c) eqn:E.
    + constructor; [reflexivity | exact IH].
    + destruct (py_split c rest) as [|r rs].
      * constructor; [simpl; rewrite E; reflexivity | constructor].
      * inversion IH as [|x l Hr Hrs]; subst.
        constructor; [simpl; rewrite E, Hr; reflexivity | exact Hrs].
Qed.

(** C8: [add_to_playlist] splits [track_uri] itself, at every comma, into
    pieces that rejoin to the input and contain no comma, strips each piece,
    and sends exactly that list as the ["uris"] field of the POST body to
    [/playlists/{playlist_id}/tracks]; ["uri1, uri2"] becomes
    [["uri1"; "uri2"]]. *)
Theorem add_to_playlist_splits_uris :
  forall json_loads playlist_id track_uri env st tok st1,
    get_access_token json_loads st (now_check env) (token_resp env) (now_after env)
      = (Ok tok, st1) ->
    add_to_playlist json_loads playlist_id track_uri env st
      = (json_response json_loads
           (http env (spotify_post_request tok ("/playlists/" ++ playlist_id ++ "/tracks")
              (JObj [("uris", JArr (map (fun u => JStr (py_strip u))
                                        (py_split "," track_uri)))]))), st1) /\
    String.concat "," (py_split "," track_uri) = track_uri /\
    Forall (fun u => has_char "," u = false) (py_split "," track_uri) /\
    split_uris "uri1, uri2" = [JStr "uri1"; JStr "uri2"].
Proof.
  intros jl pid turi env st tok st1 Htok.
  split; [|split; [|split]].
  - unfold add_to_playlist, spotify_post, with_token. rewrite Htok. reflexivity.
  - apply py_split_concat.
  - apply py_split_no_sep.
  - reflexivity.
Qed.

Lemma add_to_playlist_splits_uris_witness :
  add_to_playlist json_loads_example "p1" "uri1, uri2" (cached_env 201 "{}") cached_store
  = (Ok (JObj []), cached_store).
Proof.
  destruct (add_to_playlist_splits_uris json_loads_example "p1" "uri1, uri2"
              (cached_env 201 "{}") cached_store (JStr "tok") cached_store eq_refl)
    as [H _].
  rewrite H. reflexivity.
Defined.

(** C10: [start_playback] sends ["uris": None] when [track_uris] is [None]
    or [""], and the comma-split, stripped list otherwise. *)
Theorem start_playback_uris :
  forall json_loads context_uri track_uris position_ms env st tok st1,
    get_access_token json_loads st (now_check env) (token_resp env) (now_after env)
      = (Ok tok, st1) ->
    let send u := (put_response json_loads
                     (http env (spotify_put_request tok "/me/player/play"
                        (JObj [("context_uri", opt_str context_uri); ("uris", u);
                               ("position_ms", opt_num position_ms)]))), st1) in
    ((track_uris = None \/ track_uris = Some "") ->
     start_playback json_loads context_uri track_uris position_ms env st = send JNull) /\
    (forall s, track_uris = Some s -> s <> "" ->
     start_playback json_loads context_uri track_uris position_ms env st
       = send (JArr (map (fun u => JStr (py_strip u)) (py_split "," s)))).
Proof.
  intros jl ctx turis pos env st tok st1 Htok send.
  unfold send, start_playback, spotify_put, with_token. rewrite Htok.
  split.
  - intros [-> | ->]; reflexivity.
  - intros s -> Hs. unfold start_playback_body, playback_uris.
    destruct s as [|a rest]; [congruence|]. reflexivity.
Qed.

Lemma start_playback_uris_witness :
  start_playback json_loads_example None (Some "a, b") None (cached_env 204 "") cached_store
  = (Ok ok_marker, cached_store).
Proof.
  destruct (start_playback_uris json_loads_example None (Some "a, b") None
              (cached_env 204 "") cached_store (JStr "tok") cached_store eq_refl)
    as [_ H].
  rewrite (H "a, b" eq_refl) by discriminate. reflexivity.
Defined.

(** ** Field defaulting in the normalizers *)

Definition dget (kvs : list (string * json)) (k : string) : json :=
  match assoc k kvs with Some v => v | None => JNull end.

Definition obj_get (v : json) (k : string) : json :=
  match v with JObj kvs => dget kvs k | _ => JNull end.

Definition is_obj (v : json) : bool :=
  match v with JObj _ => true | _ => false end.

Definition artist_names (v : json) : json :=
  match v with JArr l => JArr (map (fun a => obj_get a "name") l) | _ => JNull end.

(** A search item whose [artists], when truthy, is a list of objects and
    whose [album], when truthy, is an object. *)
Definition search_item_shaped (kvs : list (string * json)) : Prop :=
  (truthy (dget kvs "artists") = true ->
   exists l, dget kvs "artists" = JArr l /\ Forall (fun a => is_obj a = true) l) /\
  (truthy (dget kvs "album") = true -> is_obj (dget kvs "album") = true).

Definition playlist_track_missing_uri : json :=
  JObj [("id", JStr "1"); ("name", JStr "Song");
        ("artists", JArr [JObj [("name", JStr "A")]]);
        ("album", JObj [("name", JStr "Alb")]); ("explicit", JBool false)].

Definition playlist_page_missing_uri : json :=
  JObj [("items", JArr [JObj [("track", playlist_track_missing_uri)]]); ("total", JNum 1)].

Lemma py_get_obj : forall kvs k d,
  py_get (JObj kvs) k d = Ok (match assoc k kvs with Some v => v | None => d end).
Proof. intros kvs k d. unfold py_get. destruct (assoc k kvs); reflexivity. Qed.

Lemma mapM_get_name : forall l,
  Forall (fun a => is_obj a = true) l ->
  mapM (fun a => py_get a "name" JNull) l = Ok (map (fun a => obj_get a "name") l).
Proof.
  intros l H. induction H as [|a l Ha Hl IH]; [reflexivity|].
  destruct a; try discriminate Ha.
  simpl. rewrite IH. unfold obj_get, dget. simpl.
  destruct (assoc "name" kvs); reflexivity.
Qed.

Lemma mapM_err : forall {A B} (f : A -> result B) x l e,
  In x l -> f x = Err e -> exists e', mapM f l = Err e'.
Proof.
  intros A B f x l e Hin Hf. induction l as [|y l IH]; [destruct Hin|].
  simpl. destruct Hin as [-> | Hin].
  - rewrite Hf. simpl. eauto.
  - destruct (f y); simpl; [|eauto].
    destruct (IH Hin) as [e' He']. rewrite He'. simpl. eauto.
Qed.

Ltac split_binds :=
  repeat match goal with
         | |- exists e, bind ?x _ = Err e =>
             destruct x eqn:?; cbn [bind]; [| eexists; reflexivity]
         end.

Lemma clean_playlist_entry_missing : forall ekvs kvs k,
  In k ["id"; "name"; "uri"; "artists"; "album"; "explicit"] ->
  assoc "track" ekvs = Some (JObj kvs) ->
  assoc k kvs = None ->
  exists e, clean_playlist_entry (JObj ekvs) = Err e.
Proof.
  intros ekvs kvs k Hk Ht Hn. unfold clean_playlist_entry.
  unfold py_getitem at 1. rewrite Ht. cbn [bind]. split_binds. exfalso.
  simpl in Hk. repeat destruct Hk as [<- | Hk]; try contradiction;
    match goal with
    | H : py_getitem (JObj kvs) _ = Ok _ |- _ =>
        unfold py_getitem in H; rewrite Hn in H; discriminate H
    end.
Qed.

(** C9 (counterexample): [get_playlist_items] indexes its fields with
    [track["uri"]]; a playlist entry whose track has no ["uri"] makes the
    tool raise [KeyError], rather than report the field as null. *)
Lemma get_playlist_items_missing_uri_raises :
  get_playlist_items (fun _ => Some playlist_page_missing_uri) "p1" 10 0
    (cached_env 200 "{}") cached_store
  = (Err (KeyError "uri"), cached_store).
Proof. reflexivity. Qed.

(** C9 (amended): the search normalizer defaults instead of raising: [id],
    [name] and [uri] are copied when present and null when absent;
    [artists] is the list of artist names when the upstream value is truthy
    (null when absent or empty); [album] is the album's name when truthy
    (null when absent or empty).  [get_playlist_items] does not default: a
    track lacking any of [id], [name], [uri], [artists], [album] or
    [explicit] makes the whole page fail. *)
Theorem normalizers_field_defaults :
  (forall kvs,
     search_item_shaped kvs ->
     clean_search_item (JObj kvs)
     = Ok (JObj [("id", dget kvs "id"); ("name", dget kvs "name"); ("uri", dget kvs "uri");
                 ("artists", if truthy (dget kvs "artists")
                             then artist_names (dget kvs "artists") else JNull);
                 ("album", if truthy (dget kvs "album")
                           then obj_get (dget kvs "album") "name" else JNull)])) /\
  (forall limit offset pkvs l ekvs kvs k,
     assoc "items" pkvs = Some (JArr l) ->
     In (JObj ekvs) l -> assoc "track" ekvs = Some (JObj kvs) ->
     In k ["id"; "name"; "uri"; "artists"; "album"; "explicit"] ->
     assoc k kvs = None ->
     exists e, playlist_items_normalize limit offset (JObj pkvs) = Err e).
Proof.
  split.
  - intros kvs [Har Hal]. unfold clean_search_item.
    repeat (rewrite py_get_obj; cbn [bind]).
    fold (dget kvs "id"). fold (dget kvs "name"). fold (dget kvs "uri").
    fold (dget kvs "artists"). fold (dget kvs "album").
    assert (Halb : exists r, (if truthy (dget kvs "album")
              then py_get match assoc "album" kvs with Some v => v | None => JObj [] end
                     "name" JNull
              else Ok JNull) = Ok r /\
              r = if truthy (dget kvs "album") then obj_get (dget kvs "album") "name"
                  else JNull).
    { destruct (truthy (dget kvs "album")) eqn:Eb; [|eexists; split; reflexivity].
      specialize (Hal eq_refl). unfold dget in *.
      destruct (assoc "album" kvs) as [al|]; [|discriminate Eb].
      destruct al as [| | | | |akvs]; try discriminate Hal.
      rewrite py_get_obj. eexists; split; reflexivity. }
    destruct Halb as [r [Hr ->]]. rewrite Hr. cbn [bind].
    destruct (truthy (dget kvs "artists")) eqn:Ea; cbn [bind]; [|reflexivity].
    destruct (Har eq_refl) as [l [Hl Hobj]]. rewrite Hl.
    unfold dget in Hl. destruct (assoc "artists" kvs); [|discriminate Hl].
    subst j. cbn [py_iter bind]. rewrite mapM_get_name by exact Hobj.
    reflexivity.
  - intros limit offset pkvs l ekvs kvs k Hi Hin Ht Hk Hn.
    destruct (clean_playlist_entry_missing ekvs kvs k Hk Ht Hn) as [e He].
    destruct (mapM_err clean_playlist_entry (JObj ekvs) l e Hin He) as [e' He'].
    unfold playlist_items_normalize, py_getitem at 1. rewrite Hi. cbn [bind].
    destruct (py_getitem (JObj pkvs) "total"); cbn [bind py_iter]; [|eauto].
    rewrite He'. cbn [bind]. eauto.
Qed.

Definition playlist_track_ok : json :=
  JObj [("id", JStr "2"); ("name", JStr "Other"); ("uri", JStr "spotify:track:2");
        ("artists", JArr [JObj [("name", JStr "B")]]);
        ("album", JObj [("name", JStr "Alb2")]); ("explicit", JBool true)].

(** A page as the API sends it: paging keys around [items], entries that
    carry [added_at] and [is_local] beside [track]; the second entry's track
    has no [uri]. *)
Definition playlist_page_full : list (string * json) :=
  [("href", JStr "https://api.spotify.com/v1/playlists/p1/tracks");
   ("items", JArr [JObj [("added_at", JStr "2024-01-01T00:00:00Z");
                         ("is_local", JBool false); ("track", playlist_track_ok)];
                   JObj [("added_at", JStr "2024-01-02T00:00:00Z");
                         ("is_local", JBool false); ("track", playlist_track_missing_uri)]]);
   ("limit", JNum 10); ("next", JNull); ("offset", JNum 0); ("previous", JNull);
   ("total", JNum 2)].

Lemma normalizers_field_defaults_witness :
  exists e, playlist_items_normalize 10 0 (JObj playlist_page_full) = Err e.
Proof.
  apply (proj2 normalizers_field_defaults 10 0 playlist_page_full
    [JObj [("added_at", JStr "2024-01-01T00:00:00Z");
           ("is_local", JBool false); ("track", playlist_track_ok)];
     JObj [("added_at", JStr "2024-01-02T00:00:00Z");
           ("is_local", JBool false); ("track", playlist_track_missing_uri)]]
    [("added_at", JStr "2024-01-02T00:00:00Z");
     ("is_local", JBool false); ("track", playlist_track_missing_uri)]
    [("id", JStr "1"); ("name", JStr "Song");
     ("artists", JArr [JObj [("name", JStr "A")]]);
     ("album", JObj [("name", JStr "Alb")]); ("explicit", JBool false)] "uri").
  - reflexivity.
  - simpl. right. left. reflexivity.
  - reflexivity.
  - simpl. tauto.
  - reflexivity.
Defined.

(** ** Further properties of the tools and the credential cache *)

Lemma assoc_dict_set : forall kvs k k' v,
  assoc k (dict_set kvs k' v) = if String.eqb k k' then Some v else assoc k kvs.
Proof.
  induction kvs as [|[k0 v0] rest IH]; intros k k' v; simpl.
  - destruct (String.eqb k k'); reflexivity.
  - destruct (String.eqb_spec k' k0) as [->|Hne]; simpl.
    + destruct (String.eqb k k0); reflexivity.
    + rewrite IH. destruct (String.eqb_spec k k0) as [->|Hk0].
      * destruct (String.eqb_spec k0 k') as [Heq|]; [congruence|reflexivity].
      * reflexivity.
Qed.

Lemma assoc_app : forall k l1 l2,
  assoc k (l1 ++ l2)%list = match assoc k l1 with Some v => Some v | None => assoc k l2 end.
Proof.
  intros k l1 l2. induction l1 as [|[k0 v0] rest IH]; simpl; [reflexivity|].
  destruct (String.eqb k k0); [reflexivity | exact IH].
Qed.

Lemma keys_dict_set : forall kvs k v,
  map fst (dict_set kvs k v) = map fst kvs \/ map fst (dict_set kvs k v) = (map fst kvs ++ [k])%list.
Proof.
  induction kvs as [|[k0 v0] rest IH]; intros k v; simpl.
  - right. reflexivity.
  - destruct (String.eqb k k0); simpl.
    + left. reflexivity.
    + destruct (IH k v) as [H|H]; rewrite H; [left|right]; reflexivity.
Qed.

Lemma assoc_dict_update : forall params q k,
  assoc k (dict_update q params)
  = match assoc k (rev params) with Some v => Some v | None => assoc k q end.
Proof.
  induction params as [|[k1 v1] params IH]; intros q k; [reflexivity|].
  unfold dict_update in *. simpl. rewrite IH, assoc_app. simpl.
  rewrite assoc_dict_set.
  destruct (assoc k (rev params)); [reflexivity|].
  destruct (String.eqb k k1); reflexivity.
Qed.

Lemma keys_dict_update : forall params q,
  exists extra, map fst (dict_update q params) = (map fst q ++ extra)%list.
Proof.
  induction params as [|[k1 v1] params IH]; intros q.
  - exists []. rewrite app_nil_r. reflexivity.
  - unfold dict_update in *. simpl.
    destruct (IH (dict_set q k1 v1)) as [extra He]. rewrite He.
    destruct (keys_dict_set q k1 v1) as [H|H]; rewrite H.
    + exists extra. reflexivity.
    + exists (k1 :: extra). rewrite <- app_assoc. reflexivity.
Qed.

(** [lastfm_get] builds its query with [q.update(params)]: a key given in
    [params] takes the caller's value (the last one if repeated), any
    other key keeps its default, and [method], [api_key], [format] and
    [autocorrect] stay the first four keys, in that order. *)
Theorem lastfm_query_update : forall api_key method params k,
  assoc k (lastfm_query api_key method params)
  = match assoc k (rev params) with
    | Some v => Some v
    | None => assoc k [("method", JStr method); ("api_key", api_key);
                       ("format", JStr "json"); ("autocorrect", JStr "1")]
    end /\
  exists extra, map fst (lastfm_query api_key method params)
                = (["method"; "api_key"; "format"; "autocorrect"] ++ extra)%list.
Proof.
  intros api_key method params k. split.
  - apply assoc_dict_update.
  - apply keys_dict_update.
Qed.

Lemma mapM_length : forall {A B} (f : A -> result B) l l',
  mapM f l = Ok l' -> length l' = length l.
Proof.
  intros A B f l. induction l as [|x l IH]; intros l' H; simpl in H.
  - injection H as <-. reflexivity.
  - destruct (f x); [|discriminate H]. simpl in H.
    destruct (mapM f l) as [ys|] eqn:E; [|discriminate H]. simpl in H.
    injection H as <-. simpl. f_equal. apply IH. reflexivity.
Qed.

Lemma mapM_nth : forall {A B} (f : A -> result B) l l' i y,
  mapM f l = Ok l' -> nth_error l' i = Some y ->
  exists x, nth_error l i = Some x /\ f x = Ok y.
Proof.
  intros A B f l. induction l as [|x l IH]; intros l' i y H Hi; simpl in H.
  - injection H as <-. destruct i; discriminate Hi.
  - destruct (f x) as [b|] eqn:Ef; [|discriminate H]. simpl in H.
    destruct (mapM f l) as [ys|] eqn:E; [|discriminate H]. simpl in H.
    injection H as <-. destruct i as [|i]; simpl in Hi.
    + injection Hi as ->. exists x. split; [reflexivity | exact Ef].
    + destruct (IH ys i y eq_refl Hi) as [x' Hx']. exists x'. exact Hx'.
Qed.

(** [get_similar_tracks] and [get_similar_artists] index the Last.fm body
    strictly: a body without ["similartracks"] (["similarartists"]), such as
    the error document Last.fm answers for an unknown track or artist,
    makes the tool raise [KeyError]. *)
Theorem lastfm_tools_missing_container :
  (forall json_loads api_key lastfm_http artist_name track_name limit kvs,
     lastfm_get json_loads api_key lastfm_http "track.getSimilar"
       [("artist", JStr artist_name); ("track", JStr track_name); ("limit", JNum limit)]
       = Ok (JObj kvs) ->
     assoc "similartracks" kvs = None ->
     get_similar_tracks json_loads api_key lastfm_http artist_name track_name limit
       = Err (KeyError "similartracks")) /\
  (forall json_loads api_key lastfm_http artist_name limit kvs,
     lastfm_get json_loads api_key lastfm_http "artist.getSimilar"
       [("artist", JStr artist_name); ("limit", JNum limit)] = Ok (JObj kvs) ->
     assoc "similarartists" kvs = None ->
     get_similar_artists json_loads api_key lastfm_http artist_name limit
       = Err (KeyError "similarartists")).
Proof.
  split.
  - intros jl api_key h an tn limit kvs Hr Hn. unfold get_similar_tracks.
    rewrite Hr. cbn [bind]. unfold similar_tracks_normalize, py_getitem at 1.
    rewrite Hn. reflexivity.
  - intros jl api_key h an limit kvs Hr Hn. unfold get_similar_artists.
    rewrite Hr. cbn [bind]. unfold similar_artists_normalize, py_getitem at 1.
    rewrite Hn. reflexivity.
Qed.

(** Last.fm's answer for an unknown track or artist. *)
Definition lastfm_error_body : json :=
  JObj [("error", JNum 6); ("message", JStr "Track not found")].

(** Only the artist query meets the error document; the track query gets
    a normal similar-tracks body, which has no ["similarartists"] either. *)
Definition lastfm_by_method (q : list (string * json)) : Response :=
  match assoc "method" q with
  | Some (JStr "track.getSimilar") => {| status_code := 200; content := "tracks" |}
  | _ => {| status_code := 200; content := "error" |}
  end.

Definition lastfm_loads (s : string) : option json :=
  if String.eqb s "tracks"
  then Some (JObj [("similartracks", JObj [("track", JArr [])])])
  else Some lastfm_error_body.

Lemma lastfm_tools_missing_container_witness :
  get_similar_tracks (fun _ => Some lastfm_error_body) JNull
    (fun _ => {| status_code := 200; content := "{}" |}) "A" "B" 5
    = Err (KeyError "similartracks") /\
  get_similar_artists lastfm_loads JNull lastfm_by_method "A" 5
    = Err (KeyError "similarartists").
Proof.
  split.
  - apply (proj1 lastfm_tools_missing_container (fun _ => Some lastfm_error_body) JNull
             (fun _ => {| status_code := 200; content := "{}" |}) "A" "B" 5
             [("error", JNum 6); ("message", JStr "Track not found")]);
      reflexivity.
  - apply (proj2 lastfm_tools_missing_container lastfm_loads JNull lastfm_by_method "A" 5
             [("error", JNum 6); ("message", JStr "Track not found")]);
      reflexivity.
Defined.

Definition similar_pair (t : json) : json :=
  JObj [("track", obj_get t "name"); ("artist", obj_get (obj_get t "artist") "name")].

(** A Last.fm track object with a ["name"] and an ["artist"] object that
    has a ["name"]. *)
Definition lastfm_track_ok (t : json) : Prop :=
  exists tkvs akvs n an, t = JObj tkvs /\ assoc "name" tkvs = Some n /\
    assoc "artist" tkvs = Some (JObj akvs) /\ assoc "name" akvs = Some an.

Definition lastfm_artist_ok (a : json) : Prop :=
  exists akvs n, a = JObj akvs /\ assoc "name" akvs = Some n.

Lemma mapM_similar_pair : forall l,
  Forall lastfm_track_ok l ->
  mapM (fun t => n <- py_getitem t "name" ;;
                 a <- py_getitem t "artist" ;;
                 an <- py_getitem a "name" ;;
                 Ok (JObj [("track", n); ("artist", an)])) l
  = Ok (map similar_pair l).
Proof.
  intros l Hl. induction Hl as [|t l Ht Hl IH]; [reflexivity|].
  destruct Ht as [tkvs [akvs [n [an [-> [Hn [Ha Han]]]]]]].
  cbn [mapM]. rewrite IH.
  unfold py_getitem at 1 2. rewrite Hn, Ha. cbn [bind]. unfold py_getitem. rewrite Han.
  cbn [bind map]. unfold similar_pair, obj_get, dget. rewrite Hn, Ha, Han. reflexivity.
Qed.

Lemma mapM_getitem_name : forall l,
  Forall lastfm_artist_ok l ->
  mapM (fun a => py_getitem a "name") l = Ok (map (fun a => obj_get a "name") l).
Proof.
  intros l Hl. induction Hl as [|a l Ha Hl IH]; [reflexivity|].
  destruct Ha as [akvs [n [-> Hn]]].
  cbn [mapM]. rewrite IH. unfold py_getitem. rewrite Hn. cbn [bind map].
  unfold obj_get, dget. rewrite Hn. reflexivity.
Qed.

(** The Last.fm normalizers keep one entry per upstream element, in the
    upstream order: [{track, artist}] pairs of names for similar tracks and
    the list of names for similar artists. *)
Theorem lastfm_normalizers_shape : forall kvs skvs l kvs' akvs' l',
  assoc "similartracks" kvs = Some (JObj skvs) -> assoc "track" skvs = Some (JArr l) ->
  Forall lastfm_track_ok l ->
  assoc "similarartists" kvs' = Some (JObj akvs') -> assoc "artist" akvs' = Some (JArr l') ->
  Forall lastfm_artist_ok l' ->
  similar_tracks_normalize (JObj kvs)
    = Ok (JObj [("similar_tracks", JArr (map similar_pair l))]) /\
  similar_artists_normalize (JObj kvs')
    = Ok (JObj [("similar_artists", JArr (map (fun a => obj_get a "name") l'))]).
Proof.
  intros kvs skvs l kvs' akvs' l' H1 H2 Hl H3 H4 Hl'. split.
  - unfold similar_tracks_normalize, py_getitem at 1 2. rewrite H1. cbn [bind].
    rewrite H2. cbn [bind py_iter]. rewrite (mapM_similar_pair l Hl). reflexivity.
  - unfold similar_artists_normalize, py_getitem at 1 2. rewrite H3. cbn [bind].
    rewrite H4. cbn [bind py_iter]. rewrite (mapM_getitem_name l' Hl'). reflexivity.
Qed.

Definition lastfm_similar_tracks_body : list (string * json) :=
  [("similartracks",
    JObj [("track",
           JArr [JObj [("name", JStr "T1"); ("match", JNum 1);
                       ("artist", JObj [("name", JStr "A1"); ("mbid", JStr "")])];
                 JObj [("name", JStr "T2"); ("match", JNum 0);
                       ("artist", JObj [("name", JStr "A2"); ("mbid", JStr "")])]]);
          ("@attr", JObj [("artist", JStr "A")])])].

Definition lastfm_similar_artists_body : list (string * json) :=
  [("similarartists",
    JObj [("artist", JArr [JObj [("name", JStr "X"); ("match", JStr "1")];
                           JObj [("name", JStr "Y"); ("match", JStr "0.5")]]);
          ("@attr", JObj [("artist", JStr "A")])])].

Lemma lastfm_normalizers_shape_witness :
  similar_tracks_normalize (JObj lastfm_similar_tracks_body)
    = Ok (JObj [("similar_tracks",
                 JArr [JObj [("track", JStr "T1"); ("artist", JStr "A1")];
                       JObj [("track", JStr "T2"); ("artist", JStr "A2")]])]) /\
  similar_artists_normalize (JObj lastfm_similar_artists_body)
    = Ok (JObj [("similar_artists", JArr [JStr "X"; JStr "Y"])]).
Proof.
  apply (lastfm_normalizers_shape lastfm_similar_tracks_body
    [("track",
      JArr [JObj [("name", JStr "T1"); ("match", JNum 1);
                  ("artist", JObj [("name", JStr "A1"); ("mbid", JStr "")])];
            JObj [("name", JStr "T2"); ("match", JNum 0);
                  ("artist", JObj [("name", JStr "A2"); ("mbid", JStr "")])]]);
     ("@attr", JObj [("artist", JStr "A")])]
    [JObj [("name", JStr "T1"); ("match", JNum 1);
           ("artist", JObj [("name", JStr "A1"); ("mbid", JStr "")])];
     JObj [("name", JStr "T2"); ("match", JNum 0);
           ("artist", JObj [("name", JStr "A2"); ("mbid", JStr "")])]]
    lastfm_similar_artists_body
    [("artist", JArr [JObj [("name", JStr "X"); ("match", JStr "1")];
                      JObj [("name", JStr "Y"); ("match", JStr "0.5")]]);
     ("@attr", JObj [("artist", JStr "A")])]
    [JObj [("name", JStr "X"); ("match", JStr "1")];
     JObj [("name", JStr "Y"); ("match", JStr "0.5")]]).
  - reflexivity.
  - reflexivity.
  - repeat constructor; do 4 eexists; repeat split; reflexivity.
  - reflexivity.
  - reflexivity.
  - repeat constructor; do 2 eexists; split; reflexivity.
Defined.

(** The two top-track tools treat an empty upstream list differently:
    [current_user_top_tracks] ([raw.get("items", []) or []]) returns an empty
    list when ["items"] is absent, null or empty, while [artist_top_tracks]
    ([raw.get("tracks", [])], no [or []]) returns [{tracks: []}] when
    ["tracks"] is absent or empty but raises [TypeError] when it is null. *)
Theorem top_tracks_empty_or_null : forall kvs,
  (assoc "items" kvs = None \/ assoc "items" kvs = Some JNull \/
   assoc "items" kvs = Some (JArr []) ->
   top_tracks_normalize (JObj kvs) = Ok (JArr [])) /\
  (assoc "tracks" kvs = None \/ assoc "tracks" kvs = Some (JArr []) ->
   artist_top_tracks_normalize (JObj kvs) = Ok (JObj [("tracks", JArr [])])) /\
  (assoc "tracks" kvs = Some JNull ->
   artist_top_tracks_normalize (JObj kvs) = Err TypeError).
Proof.
  intros kvs. split; [|split].
  - unfold top_tracks_normalize, py_get.
    intros [H|[H|H]]; rewrite H; reflexivity.
  - unfold artist_top_tracks_normalize, py_get.
    intros [H|H]; rewrite H; reflexivity.
  - unfold artist_top_tracks_normalize, py_get. intros H. rewrite H. reflexivity.
Qed.

Lemma top_tracks_empty_or_null_witness :
  top_tracks_normalize (JObj [("items", JNull)]) = Ok (JArr []) /\
  artist_top_tracks_normalize (JObj [("tracks", JNull)]) = Err TypeError.
Proof.
  split.
  - apply (proj1 (top_tracks_empty_or_null [("items", JNull)])). right. left. reflexivity.
  - apply (proj2 (proj2 (top_tracks_empty_or_null [("tracks", JNull)]))). reflexivity.
Defined.

Lemma clean_ranked_tracks_err : forall pre x post idx,
  (forall i, exists e, clean_ranked_track i x = Err e) ->
  exists e, clean_ranked_tracks idx (pre ++ x :: post)%list = Err e.
Proof.
  induction pre as [|y pre IH]; intros x post idx Hx; simpl.
  - destruct (Hx idx) as [e He]. rewrite He. simpl. eauto.
  - destruct (clean_ranked_track idx y); simpl; [|eauto].
    destruct (IH x post (idx + 1) Hx) as [e He]. rewrite He. simpl. eauto.
Qed.

Lemma album_name_null : forall tkvs,
  assoc "album" tkvs = Some JNull -> album_name (JObj tkvs) = Err AttributeError.
Proof. intros tkvs H. unfold album_name. rewrite py_get_obj, H. reflexivity. Qed.

Lemma mapM_app_err : forall {A B} (f : A -> result B) pre x post xs e,
  mapM f pre = Ok xs -> f x = Err e -> mapM f (pre ++ x :: post)%list = Err e.
Proof.
  intros A B f pre. induction pre as [|y pre IH]; intros x post xs e Hp Hx; simpl.
  - rewrite Hx. reflexivity.
  - simpl in Hp. destruct (f y); cbn [bind] in *; [|discriminate Hp].
    destruct (mapM f pre) as [ys|] eqn:E; cbn [bind] in Hp; [|discriminate Hp].
    rewrite (IH x post ys e eq_refl Hx). reflexivity.
Qed.

Lemma clean_ranked_tracks_app_err : forall pre idx x post xs e,
  clean_ranked_tracks idx pre = Ok xs -> (forall i, clean_ranked_track i x = Err e) ->
  clean_ranked_tracks idx (pre ++ x :: post)%list = Err e.
Proof.
  induction pre as [|y pre IH]; intros idx x post xs e Hp Hx; simpl.
  - rewrite Hx. reflexivity.
  - simpl in Hp. destruct (clean_ranked_track idx y); cbn [bind] in *; [|discriminate Hp].
    destruct (clean_ranked_tracks (idx + 1) pre) as [ys|] eqn:E; cbn [bind] in Hp;
      [|discriminate Hp].
    rewrite (IH (idx + 1) x post ys e E Hx). reflexivity.
Qed.

(** [t.get("album", {}).get("name")] defaults an absent album but not a
    null one: in any page of [artist_top_tracks] ([tracks]) or
    [current_user_top_tracks] ([items]), a track whose ["album"] is null
    makes the whole tool fail; when its artists are well-formed and the
    tracks before it are shaped without error, the error is
    [AttributeError] ([None.get]). *)
Theorem top_tracks_null_album : forall kvs pre post tkvs,
  assoc "album" tkvs = Some JNull ->
  (assoc "tracks" kvs = Some (JArr (pre ++ JObj tkvs :: post)) ->
   exists e, artist_top_tracks_normalize (JObj kvs) = Err e) /\
  (assoc "items" kvs = Some (JArr (pre ++ JObj tkvs :: post)) ->
   exists e, top_tracks_normalize (JObj kvs) = Err e) /\
  (forall names, artist_name_list (JObj tkvs) = Ok names ->
   (assoc "tracks" kvs = Some (JArr (pre ++ JObj tkvs :: post)) ->
    (exists xs, mapM clean_top_track pre = Ok xs) ->
    artist_top_tracks_normalize (JObj kvs) = Err AttributeError) /\
   (assoc "items" kvs = Some (JArr (pre ++ JObj tkvs :: post)) ->
    (exists xs, clean_ranked_tracks 1 pre = Ok xs) ->
    top_tracks_normalize (JObj kvs) = Err AttributeError)).
Proof.
  intros kvs pre post tkvs Hal.
  assert (Hc : forall i, exists e, clean_ranked_track i (JObj tkvs) = Err e).
  { intros i. unfold clean_ranked_track. repeat (rewrite py_get_obj; cbn [bind]).
    destruct (artist_name_list (JObj tkvs)); cbn [bind]; [|eauto].
    rewrite (album_name_null tkvs Hal). cbn [bind]. eauto. }
  assert (Hx : exists e, clean_top_track (JObj tkvs) = Err e).
  { unfold clean_top_track. repeat (rewrite py_get_obj; cbn [bind]).
    destruct (artist_name_list (JObj tkvs)); cbn [bind]; [|eauto].
    rewrite (album_name_null tkvs Hal). cbn [bind]. eauto. }
  assert (Ht : truthy (JArr (pre ++ JObj tkvs :: post)) = true) by (destruct pre; reflexivity).
  split; [|split; [|intros names Hn; split]].
  - intros Htr. destruct Hx as [e He].
    destruct (mapM_err clean_top_track (JObj tkvs) (pre ++ JObj tkvs :: post)%list e)
      as [e' He'].
    + apply in_or_app. right. left. reflexivity.
    + exact He.
    + unfold artist_top_tracks_normalize. rewrite py_get_obj, Htr.
      cbn [bind py_iter]. rewrite He'. cbn [bind]. eauto.
  - intros Hit. destruct (clean_ranked_tracks_err pre (JObj tkvs) post 1 Hc) as [e He].
    unfold top_tracks_normalize. rewrite py_get_obj, Hit. cbn [bind]. rewrite Ht.
    cbn [py_iter bind]. rewrite He. cbn [bind]. eauto.
  - intros Htr [xs Hxs].
    assert (He : clean_top_track (JObj tkvs) = Err AttributeError).
    { unfold clean_top_track. repeat (rewrite py_get_obj; cbn [bind]).
      rewrite Hn. cbn [bind]. rewrite (album_name_null tkvs Hal). reflexivity. }
    unfold artist_top_tracks_normalize. rewrite py_get_obj, Htr. cbn [bind py_iter].
    rewrite (mapM_app_err clean_top_track pre (JObj tkvs) post xs AttributeError Hxs He).
    reflexivity.
  - intros Hit [xs Hxs].
    assert (He : forall i, clean_ranked_track i (JObj tkvs) = Err AttributeError).
    { intros i. unfold clean_ranked_track. repeat (rewrite py_get_obj; cbn [bind]).
      rewrite Hn. cbn [bind]. rewrite (album_name_null tkvs Hal). reflexivity. }
    unfold top_tracks_normalize. rewrite py_get_obj, Hit. cbn [bind]. rewrite Ht.
    cbn [py_iter bind].
    rewrite (clean_ranked_tracks_app_err pre 1 (JObj tkvs) post xs AttributeError Hxs He).
    reflexivity.
Qed.

Definition top_track_ok : json :=
  JObj [("id", JStr "1"); ("name", JStr "Song"); ("uri", JStr "spotify:track:1");
        ("artists", JArr [JObj [("name", JStr "A"); ("id", JStr "a")]]);
        ("album", JObj [("name", JStr "Alb")]); ("popularity", JNum 50)].

Definition top_track_null_album_kvs : list (string * json) :=
  [("id", JStr "2"); ("name", JStr "Single"); ("uri", JStr "spotify:track:2");
   ("artists", JArr [JObj [("name", JStr "B"); ("id", JStr "b")]]);
   ("album", JNull); ("popularity", JNum 10)].

(** A [/me/top/tracks] page with its paging keys, whose second track has a
    null album; and the same tracks as an artist's top tracks. *)
Definition top_tracks_page : list (string * json) :=
  [("items", JArr [top_track_ok; JObj top_track_null_album_kvs]);
   ("total", JNum 2); ("limit", JNum 10); ("offset", JNum 0);
   ("href", JStr "https://api.spotify.com/v1/me/top/tracks"); ("next", JNull)].

Definition artist_tracks_page : list (string * json) :=
  [("tracks", JArr [top_track_ok; JObj top_track_null_album_kvs])].

Lemma top_tracks_null_album_witness :
  artist_top_tracks_normalize (JObj artist_tracks_page) = Err AttributeError /\
  top_tracks_normalize (JObj top_tracks_page) = Err AttributeError.
Proof.
  split.
  - apply (proj1 (proj2 (proj2 (top_tracks_null_album artist_tracks_page [top_track_ok] []
             top_track_null_album_kvs eq_refl)) (JArr [JStr "B"]) eq_refl)).
    + reflexivity.
    + eexists. reflexivity.
  - apply (proj2 (proj2 (proj2 (top_tracks_null_album top_tracks_page [top_track_ok] []
             top_track_null_album_kvs eq_refl)) (JArr [JStr "B"]) eq_refl)).
    + reflexivity.
    + eexists. reflexivity.
Defined.

Ltac inv_binds H :=
  repeat match type of H with
         | bind ?m _ = Ok _ => destruct m eqn:?; cbn [bind] in H; [|discriminate H]
         end.

Lemma clean_ranked_track_rank : forall idx t x,
  clean_ranked_track idx t = Ok x -> py_getitem x "rank" = Ok (JNum idx).
Proof.
  intros idx t x H. unfold clean_ranked_track in H. inv_binds H.
  injection H as <-. reflexivity.
Qed.

Lemma clean_ranked_tracks_rank : forall l idx xs i x,
  clean_ranked_tracks idx l = Ok xs -> nth_error xs i = Some x ->
  py_getitem x "rank" = Ok (JNum (idx + Z.of_nat i)).
Proof.
  induction l as [|t l IH]; intros idx xs i x H Hi; simpl in H.
  - injection H as <-. destruct i; discriminate Hi.
  - inv_binds H. injection H as <-. destruct i as [|i]; simpl in Hi.
    + injection Hi as <-. rewrite Z.add_0_r. eapply clean_ranked_track_rank. eassumption.
    + erewrite IH; [| eassumption | exact Hi]. f_equal. f_equal. lia.
Qed.

(** [current_user_top_tracks] numbers its results with
    [enumerate(items, start=1)]: the [i]-th result (from 0) has rank [i + 1]. *)
Theorem top_tracks_ranks : forall raw xs,
  top_tracks_normalize raw = Ok (JArr xs) ->
  forall i x, nth_error xs i = Some x -> py_getitem x "rank" = Ok (JNum (1 + Z.of_nat i)).
Proof.
  intros raw xs H i x Hi. unfold top_tracks_normalize in H. inv_binds H.
  injection H as <-. eapply clean_ranked_tracks_rank; eassumption.
Qed.

Lemma top_tracks_ranks_witness :
  py_getitem (JObj [("rank", JNum 2); ("id", JStr "b"); ("name", JNull); ("uri", JNull);
                    ("artists", JArr []); ("album", JNull)]) "rank" = Ok (JNum (1 + Z.of_nat 1)).
Proof.
  apply (top_tracks_ranks (JObj [("items", JArr [JObj [("id", JStr "a")]; JObj [("id", JStr "b")]])])
           [JObj [("rank", JNum 1); ("id", JStr "a"); ("name", JNull); ("uri", JNull);
                  ("artists", JArr []); ("album", JNull)];
            JObj [("rank", JNum 2); ("id", JStr "b"); ("name", JNull); ("uri", JNull);
                  ("artists", JArr []); ("album", JNull)]]); reflexivity.
Defined.

(** [get_current_user_playlists] and [get_playlist_items] report in
    ["returned"] the number of entries in the upstream ["items"] list, and
    echo the [limit] and [offset] arguments. *)
Theorem playlist_pages_returned_count : forall limit offset raw r,
  (playlists_normalize limit offset raw = Ok r \/
   playlist_items_normalize limit offset raw = Ok r) ->
  exists items l,
    py_getitem raw "items" = Ok items /\ py_iter items = Ok l /\
    py_getitem r "returned" = Ok (JNum (Z.of_nat (length l))) /\
    py_getitem r "limit" = Ok (JNum limit) /\ py_getitem r "offset" = Ok (JNum offset).
Proof.
  intros limit offset raw r [H|H].
  - unfold playlists_normalize in H. inv_binds H. injection H as <-.
    do 2 eexists. split; [reflexivity|]. split; [eassumption|].
    split; [|split; reflexivity].
    simpl. erewrite mapM_length by eassumption. reflexivity.
  - unfold playlist_items_normalize in H. inv_binds H. injection H as <-.
    do 2 eexists. split; [reflexivity|]. split; [eassumption|].
    split; [|split; reflexivity].
    simpl. erewrite mapM_length by eassumption. reflexivity.
Qed.

(** Non-empty pages as the API sends them, with their paging keys. *)
Definition playlists_page : json :=
  JObj [("href", JStr "https://api.spotify.com/v1/me/playlists");
        ("items", JArr [JObj [("id", JStr "p1"); ("name", JStr "Mix"); ("public", JBool true);
                              ("uri", JStr "spotify:playlist:p1"); ("description", JStr "");
                              ("owner", JObj [("display_name", JStr "me"); ("id", JStr "u")]);
                              ("tracks", JObj [("href", JNull); ("total", JNum 12)])];
                        JObj [("id", JStr "p2"); ("name", JStr "Chill");
                              ("uri", JStr "spotify:playlist:p2"); ("description", JStr "d");
                              ("owner", JObj [("display_name", JStr "you")]);
                              ("tracks", JObj [("total", JNum 3)])]]);
        ("limit", JNum 2); ("next", JStr "https://api.spotify.com/v1/me/playlists?offset=2");
        ("offset", JNum 0); ("previous", JNull); ("total", JNum 7)].

Definition playlist_tracks_page : json :=
  JObj [("href", JStr "https://api.spotify.com/v1/playlists/p1/tracks");
        ("items", JArr [JObj [("added_at", JStr "2024-01-01T00:00:00Z");
                              ("is_local", JBool false); ("track", playlist_track_ok)];
                        JObj [("added_at", JStr "2024-01-02T00:00:00Z");
                              ("is_local", JBool false); ("track", playlist_track_ok)]]);
        ("limit", JNum 2); ("next", JNull); ("offset", JNum 4); ("previous", JNull);
        ("total", JNum 6)].

Definition ok_or_null (r : result json) : json :=
  match r with Ok v => v | Err _ => JNull end.

Definition playlists_page_result : json :=
  Eval vm_compute in ok_or_null (playlists_normalize 2 0 playlists_page).

Definition playlist_tracks_page_result : json :=
  Eval vm_compute in ok_or_null (playlist_items_normalize 2 4 playlist_tracks_page).

Lemma playlist_pages_returned_count_witness :
  (exists items l,
     py_getitem playlists_page "items" = Ok items /\ py_iter items = Ok l /\
     py_getitem playlists_page_result "returned" = Ok (JNum (Z.of_nat (length l))) /\
     py_getitem playlists_page_result "limit" = Ok (JNum 2) /\
     py_getitem playlists_page_result "offset" = Ok (JNum 0)) /\
  (exists items l,
     py_getitem playlist_tracks_page "items" = Ok items /\ py_iter items = Ok l /\
     py_getitem playlist_tracks_page_result "returned" = Ok (JNum (Z.of_nat (length l))) /\
     py_getitem playlist_tracks_page_result "limit" = Ok (JNum 2) /\
     py_getitem playlist_tracks_page_result "offset" = Ok (JNum 4)).
Proof.
  split.
  - apply (playlist_pages_returned_count 2 0 playlists_page playlists_page_result).
    left. vm_compute. reflexivity.
  - apply (playlist_pages_returned_count 2 4 playlist_tracks_page playlist_tracks_page_result).
    right. vm_compute. reflexivity.
Defined.

(** Both playlist tools index ["total"] strictly: an upstream page with
    ["items"] but no ["total"] makes them raise [KeyError "total"]. *)
Theorem playlist_pages_missing_total : forall limit offset kvs items,
  assoc "items" kvs = Some items -> assoc "total" kvs = None ->
  playlists_normalize limit offset (JObj kvs) = Err (KeyError "total") /\
  playlist_items_normalize limit offset (JObj kvs) = Err (KeyError "total").
Proof.
  intros limit offset kvs items Hi Ht.
  unfold playlists_normalize, playlist_items_normalize, py_getitem at 1 2 3 4.
  rewrite Hi, Ht. split; reflexivity.
Qed.

Lemma playlist_pages_missing_total_witness :
  playlists_normalize 10 0 (JObj [("items", JArr [])]) = Err (KeyError "total") /\
  playlist_items_normalize 10 0 (JObj [("items", JArr [])]) = Err (KeyError "total").
Proof.
  exact (playlist_pages_missing_total 10 0 [("items", JArr [])] (JArr []) eq_refl eq_refl).
Defined.

(** [search_spotify] neither filters nor truncates: when the container's
    ["items"] is a list, a successful result has one shaped item per
    upstream item. *)
Theorem search_normalize_count : forall search_type raw l r,
  (c <- py_getitem raw (search_type ++ "s") ;; py_getitem c "items") = Ok (JArr l) ->
  search_normalize search_type raw = Ok r ->
  exists cleaned, r = JObj [("type", JStr search_type); ("items", JArr cleaned)] /\
                  length cleaned = length l.
Proof.
  intros stype raw l r Hc H. unfold search_normalize in H. rewrite Hc in H.
  cbn [py_iter bind] in H. inv_binds H. injection H as <-.
  eexists. split; [reflexivity|]. eapply mapM_length. eassumption.
Qed.

Lemma search_normalize_count_witness :
  exists cleaned,
    JObj [("type", JStr "artist"); ("items", JArr [JObj [("id", JStr "x"); ("name", JNull);
          ("uri", JNull); ("artists", JNull); ("album", JNull)]])]
    = JObj [("type", JStr "artist"); ("items", JArr cleaned)] /\
    length cleaned = length [JObj [("id", JStr "x")]].
Proof.
  apply (search_normalize_count "artist"
           (JObj [("artists", JObj [("items", JArr [JObj [("id", JStr "x")]])])])
           [JObj [("id", JStr "x")]]); reflexivity.
Defined.

Definition token_body : json := JObj [("access_token", JStr "new"); ("expires_in", JNum 3600)].

Lemma get_access_token_ok_store : forall json_loads st now resp now' tok st1,
  get_access_token json_loads st now resp now' = (Ok tok, st1) ->
  access_token st1 = tok.
Proof.
  intros jl st now resp now' tok st1 H. unfold get_access_token in H.
  destruct (token_valid st now).
  - injection H as <- <-. reflexivity.
  - unfold refresh in H.
    destruct (raise_for_status resp); [discriminate H|].
    destruct (resp_json jl resp) as [data|]; [|discriminate H].
    destruct (py_getitem data "access_token") as [t|]; [|discriminate H].
    destruct (py_getitem data "expires_in") as [ein|]; [|discriminate H].
    destruct (add_time now' ein); [|discriminate H].
    injection H as <- <-. reflexivity.
Qed.

(** Whenever [get_access_token] succeeds, the token it returns is the one
    left in the cache, whether it was served from the cache or fetched. *)
Theorem get_access_token_returns_cached : forall json_loads st now resp now' tok st1,
  get_access_token json_loads st now resp now' = (Ok tok, st1) ->
  access_token st1 = tok.
Proof. exact get_access_token_ok_store. Qed.

Lemma get_access_token_returns_cached_witness :
  access_token {| access_token := JStr "new"; expires_at := 1 + 3600 |} = JStr "new".
Proof.
  apply (get_access_token_returns_cached (fun _ => Some token_body) init_store 0
           {| status_code := 200; content := "{}" |} 1). reflexivity.
Defined.

(** Two successive calls: once a call has returned a non-empty token, any
    later call made before the stored expiry returns that same token and
    leaves the cache as it is, whatever the token endpoint would answer. *)
Theorem get_access_token_reuse : forall json_loads st now resp now' tok st1 now2 resp2 now2',
  get_access_token json_loads st now resp now' = (Ok tok, st1) ->
  truthy tok = true -> now2 < expires_at st1 ->
  get_access_token json_loads st1 now2 resp2 now2' = (Ok tok, st1).
Proof.
  intros jl st now resp now' tok st1 now2 resp2 now2' H Ht Hn.
  pose proof (get_access_token_ok_store jl st now resp now' tok st1 H) as Hc.
  unfold get_access_token at 1.
  assert (Hv : token_valid st1 now2 = true).
  { apply token_valid_iff. rewrite Hc. split; assumption. }
  rewrite Hv, Hc. reflexivity.
Qed.

Lemma get_access_token_reuse_witness :
  get_access_token (fun _ => Some token_body)
    {| access_token := JStr "new"; expires_at := 10 + 3600 |} 20
    {| status_code := 500; content := "" |} 21
  = (Ok (JStr "new"), {| access_token := JStr "new"; expires_at := 10 + 3600 |}).
Proof.
  apply (get_access_token_reuse (fun _ => Some token_body) init_store 5
           {| status_code := 200; content := "{}" |} 10).
  - reflexivity.
  - reflexivity.
  - simpl. lia.
Defined.

(** A 2xx token answer that carries ["access_token"] but no usable
    ["expires_in"] (missing, or not a number) makes the call raise, yet the
    new token has already been written to the cache with the old expiry.
    When the cache held a non-empty token (so the call refreshed because it
    had expired), that half-written token is never served: every later call
    whose clock has not gone back refreshes again. *)
Theorem refresh_half_update : forall json_loads st now resp now' data tok,
  token_valid st now = false ->
  is_success (status_code resp) = true ->
  json_loads (content resp) = Some data ->
  py_getitem data "access_token" = Ok tok ->
  (exists e, (ein <- py_getitem data "expires_in" ;; add_time now' ein) = Err e) ->
  let st1 := {| access_token := tok; expires_at := expires_at st |} in
  (exists e, get_access_token json_loads st now resp now' = (Err e, st1)) /\
  (truthy (access_token st) = true ->
   forall now2 resp2 now2', now <= now2 ->
   get_access_token json_loads st1 now2 resp2 now2' = refresh json_loads st1 resp2 now2').
Proof.
  intros jl st now resp now' data tok Hv Hs Hj Ht [e He] st1.
  split.
  - unfold get_access_token. rewrite Hv. unfold refresh, raise_for_status, resp_json.
    rewrite Hs, Hj, Ht.
    destruct (py_getitem data "expires_in") as [ein|e'].
    + cbn [bind] in He. rewrite He. eauto.
    + eauto.
  - intros Hold now2 resp2 now2' Hn.
    unfold token_valid in Hv. rewrite Hold in Hv. simpl in Hv. apply Z.ltb_ge in Hv.
    unfold get_access_token.
    assert (Hv2 : token_valid st1 now2 = false).
    { unfold token_valid, st1. simpl. rewrite (proj2 (Z.ltb_ge now2 (expires_at st))) by lia.
      apply andb_false_r. }
    rewrite Hv2. reflexivity.
Qed.

(** The cache held an expired token; the refresh at clock 200 gets a body
    without [expires_in]; the next call, at 300, refreshes again. *)
Lemma refresh_half_update_witness :
  (exists e, get_access_token (fun _ => Some (JObj [("access_token", JStr "new");
                                                    ("token_type", JStr "Bearer")]))
               {| access_token := JStr "old"; expires_at := 100 |} 200
               {| status_code := 200; content := "{}" |} 201
             = (Err e, {| access_token := JStr "new"; expires_at := 100 |})) /\
  get_access_token (fun _ => Some (JObj [("access_token", JStr "new");
                                         ("token_type", JStr "Bearer")]))
    {| access_token := JStr "new"; expires_at := 100 |} 300
    {| status_code := 401; content := "" |} 301
  = refresh (fun _ => Some (JObj [("access_token", JStr "new");
                                  ("token_type", JStr "Bearer")]))
      {| access_token := JStr "new"; expires_at := 100 |}
      {| status_code := 401; content := "" |} 301.
Proof.
  destruct (refresh_half_update
    (fun _ => Some (JObj [("access_token", JStr "new"); ("token_type", JStr "Bearer")]))
    {| access_token := JStr "old"; expires_at := 100 |} 200
    {| status_code := 200; content := "{}" |} 201
    (JObj [("access_token", JStr "new"); ("token_type", JStr "Bearer")]) (JStr "new"))
    as [H1 H2].
  - reflexivity.
  - reflexivity.
  - reflexivity.
  - reflexivity.
  - exists (KeyError "expires_in"). reflexivity.
  - split; [exact H1|]. apply H2; [reflexivity | lia].
Defined.

(** A token fetched with a non-positive numeric [expires_in] is never
    served from the cache to a later call whose clock has not gone back:
    that call refreshes again.  The token answer may carry any other keys
    ([token_type], [scope], ...). *)
Theorem nonpositive_expiry_refreshes_again :
  forall json_loads st now resp now' dkvs tok e st1 now2 resp2 now2',
    token_valid st now = false ->
    is_success (status_code resp) = true ->
    json_loads (content resp) = Some (JObj dkvs) ->
    assoc "access_token" dkvs = Some tok -> assoc "expires_in" dkvs = Some (JNum e) ->
    e <= 0 -> now' <= now2 ->
    get_access_token json_loads st now resp now' = (Ok tok, st1) ->
    get_access_token json_loads st1 now2 resp2 now2' = refresh json_loads st1 resp2 now2'.
Proof.
  intros jl st now resp now' dkvs tok e st1 now2 resp2 now2' Hv Hs Hj Ha He Hle Hn H.
  unfold get_access_token in H. rewrite Hv in H.
  unfold refresh, raise_for_status, resp_json in H. rewrite Hs, Hj in H.
  unfold py_getitem in H. rewrite Ha, He in H.
  cbn in H. injection H as <-.
  unfold get_access_token.
  assert (Hv2 : token_valid {| access_token := tok; expires_at := now' + e |} now2 = false).
  { unfold token_valid. simpl. destruct (truthy tok); [|reflexivity].
    simpl. apply Z.ltb_ge. lia. }
  rewrite Hv2. reflexivity.
Qed.

Definition token_body_zero : json :=
  JObj [("access_token", JStr "t"); ("token_type", JStr "Bearer");
        ("expires_in", JNum 0); ("scope", JStr "user-read-private")].

Lemma nonpositive_expiry_refreshes_again_witness :
  get_access_token (fun _ => Some token_body_zero)
    {| access_token := JStr "t"; expires_at := 7 + 0 |} 9
    {| status_code := 401; content := "" |} 9
  = refresh (fun _ => Some token_body_zero)
      {| access_token := JStr "t"; expires_at := 7 + 0 |}
      {| status_code := 401; content := "" |} 9.
Proof.
  apply (nonpositive_expiry_refreshes_again (fun _ => Some token_body_zero)
           init_store 0 {| status_code := 200; content := "{}" |} 7
           [("access_token", JStr "t"); ("token_type", JStr "Bearer");
            ("expires_in", JNum 0); ("scope", JStr "user-read-private")] (JStr "t") 0).
  - reflexivity.
  - reflexivity.
  - reflexivity.
  - reflexivity.
  - reflexivity.
  - lia.
  - lia.
  - reflexivity.
Defined.

Fixpoint count_char (c : ascii) (s : string) : nat :=
  match s with
  | EmptyString => 0
  | String a rest => (if Ascii.eqb a c then 1 else 0) + count_char c rest
  end.

Definition starts_space (s : string) : bool :=
  match s with
  | EmptyString => false
  | String c _ => is_space c
  end.

Definition ends_space (s : string) : bool := starts_space (rev_str s).

Lemma py_split_length : forall c s,
  length (py_split c s) = S (count_char c s).
Proof.
  intros c s. induction s as [|a rest IH]; [reflexivity|].
  simpl. destruct (Ascii.eqb a c) eqn:E.
  - simpl. rewrite IH. reflexivity.
  - destruct (py_split c rest) as [|r rs] eqn:Hs.
    + exfalso. exact (py_split_nonempty c rest Hs).
    + simpl in *. exact IH.
Qed.

Lemma str_app_assoc : forall a b d : string, (a ++ b) ++ d = a ++ (b ++ d).
Proof. induction a as [|x a IH]; intros; simpl; [reflexivity|]. rewrite IH. reflexivity. Qed.

Lemma str_app_nil : forall a : string, a ++ EmptyString = a.
Proof. induction a as [|x a IH]; simpl; [reflexivity|]. rewrite IH. reflexivity. Qed.

Lemma rev_str_app : forall a b, rev_str (a ++ b) = rev_str b ++ rev_str a.
Proof.
  induction a as [|x a IH]; intros b; simpl.
  - rewrite str_app_nil. reflexivity.
  - rewrite IH, str_app_assoc. reflexivity.
Qed.

Lemma rev_str_involutive : forall s, rev_str (rev_str s) = s.
Proof.
  induction s as [|x s IH]; [reflexivity|]. simpl.
  rewrite rev_str_app. simpl. rewrite IH. reflexivity.
Qed.

Lemma lstrip_no_lead : forall s, starts_space (lstrip s) = false.
Proof.
  induction s as [|x s IH]; [reflexivity|]. simpl.
  destruct (is_space x) eqn:E; [exact IH|]. simpl. exact E.
Qed.

Lemma lstrip_snoc : forall y c, is_space c = false ->
  lstrip (y ++ String c EmptyString) = lstrip y ++ String c EmptyString.
Proof.
  induction y as [|x y IH]; intros c Hc; simpl.
  - rewrite Hc. reflexivity.
  - destruct (is_space x); [apply IH, Hc | reflexivity].
Qed.

Lemma rstrip_no_lead : forall x, starts_space x = false -> starts_space (rstrip x) = false.
Proof.
  intros [|c y] H; [reflexivity|]. simpl in H. unfold rstrip. simpl.
  rewrite lstrip_snoc by exact H. rewrite rev_str_app. simpl. exact H.
Qed.

Lemma py_strip_trimmed : forall u,
  starts_space (py_strip u) = false /\ ends_space (py_strip u) = false.
Proof.
  intros u. unfold py_strip. split.
  - apply rstrip_no_lead, lstrip_no_lead.
  - unfold ends_space, rstrip. rewrite rev_str_involutive. apply lstrip_no_lead.
Qed.

(** [add_to_playlist] and [start_playback] cut their comma-separated
    argument with [split(",")], which keeps empty pieces: there is exactly
    one URI more than there are commas, and every URI is stripped, so it
    neither starts nor ends with whitespace. *)
Theorem split_uris_count_trimmed : forall s u,
  length (split_uris s) = S (count_char "," s) /\
  (In u (split_uris s) ->
   exists v, u = JStr v /\ starts_space v = false /\ ends_space v = false).
Proof.
  intros s u. split.
  - unfold split_uris. rewrite length_map. apply py_split_length.
  - unfold split_uris. intros Hin. apply in_map_iff in Hin.
    destruct Hin as [w [<- _]]. exists (py_strip w). split; [reflexivity|].
    apply py_strip_trimmed.
Qed.

Lemma split_uris_count_trimmed_witness :
  length (split_uris " a ,, b ") = 3%nat /\
  exists v, JStr "b" = JStr v /\ starts_space v = false /\ ends_space v = false.
Proof.
  split.
  - exact (proj1 (split_uris_count_trimmed " a ,, b " (JStr "b"))).
  - apply (proj2 (split_uris_count_trimmed " a ,, b " (JStr "b"))).
    vm_compute. right. right. left. reflexivity.
Defined.

